(** * Aim-bias analyser: temporal alignment and deviation statistics

    A shallow embedding of [aim_bias_md5_auto.py]: the nearest-frame search
    ([find_closest_frame]), the per-replay deviation filter (the loop of
    [analyze_replay_with_md5]) and the report of [summarize_errors].

    Numbers.  Times are Python [int]s and are modelled as [Z].  Cursor
    positions and everything derived from them are Python floats; they are
    modelled as exact rationals ([Qc], canonical fractions, so that equality
    of values is Leibniz equality).  [statistics.mean] itself adds its data as
    exact fractions, so the mean of the model is the mean of the code before
    its final rounding. *)

From Stdlib Require Import String ZArith QArith Qcanon Qcabs List Bool Lia.
From Stdlib Require Import Permutation Sorted Reals Lra Qreals.
From Stdlib Require Import Ascii.
From Equations Require Import Equations.
Import ListNotations.

Local Open Scope Z_scope.

(** ** Replay timeline *)

(** A replay frame [(time_ms, x, y)]. *)
Definition frame := (Z * Qc * Qc)%type.

Definition frame_time (f : frame) : Z := fst (fst f).
Definition frame_x (f : frame) : Qc := snd (fst f).
Definition frame_y (f : frame) : Qc := snd f.

(** A replay event of [osrparse]: the time since the previous event and the
    cursor position.  The delta is read from [time_since_previous_action] or,
    in other versions of the library, from [time_delta]; the record holds
    the value read. *)
Record replay_event := mkEvent {
  time_delta : Z;
  evt_x : Qc;
  evt_y : Qc
}.

(** The loop of [build_replay_timeline], with the running time [t] as an
    accumulator. *)
Fixpoint build_from (t : Z) (replay_data : list replay_event) : list frame :=
  match replay_data with
  | [] => []
  | evt :: rest =>
      let t' := t + time_delta evt in
      (t', evt_x evt, evt_y evt) :: build_from t' rest
  end.

Definition build_replay_timeline (replay_data : list replay_event) : list frame :=
  build_from 0 replay_data.

(** ** Nearest frame in time *)

(** State of the scan: the variables [best] and [best_dt]. *)
Definition scan_state := (option frame * option Z)%type.

(** [best_dt is None or dt < best_dt] *)
Definition improves (dt : Z) (best_dt : option Z) : bool :=
  match best_dt with
  | None => true
  | Some d => dt <? d
  end.

(** [t > target_time and best_dt is not None and t - target_time > best_dt] *)
Definition should_break (t target_time : Z) (best_dt : option Z) : bool :=
  (t >? target_time) &&
  match best_dt with
  | None => false
  | Some d => t - target_time >? d
  end.

(** The [for] loop of [find_closest_frame]; leaving the recursion is the
    [break]. *)
Fixpoint scan (timeline : list frame) (target_time : Z) (st : scan_state)
  : scan_state :=
  match timeline with
  | [] => st
  | (t, x, y) :: rest =>
      let dt := Z.abs (t - target_time) in
      let st' := if improves dt (snd st) then (Some (t, x, y), Some dt) else st in
      if should_break t target_time (snd st') then st'
      else scan rest target_time st'
  end.

Definition find_closest_frame (timeline : list frame) (target_time max_delta : Z)
  : option frame :=
  match scan timeline target_time (None, None) with
  | (Some best, Some best_dt) =>
      if best_dt >? max_delta then None else Some best
  | _ => None
  end.

(** The same loop without the early exit: the full scan the [break] is
    measured against. *)
Fixpoint scan_all (timeline : list frame) (target_time : Z) (st : scan_state)
  : scan_state :=
  match timeline with
  | [] => st
  | (t, x, y) :: rest =>
      let dt := Z.abs (t - target_time) in
      scan_all rest target_time
        (if improves dt (snd st) then (Some (t, x, y), Some dt) else st)
  end.

(** Distance in time of a frame from the target. *)
Definition time_dist (target_time : Z) (f : frame) : Z :=
  Z.abs (frame_time f - target_time).

(** One iteration's update of [best] and [best_dt], as a function of the
    frame (the first [if] of the loop body). *)
Definition update_best (target_time : Z) (f : frame) (st : scan_state)
  : scan_state :=
  if improves (time_dist target_time f) (snd st)
  then (Some f, Some (time_dist target_time f)) else st.

(** Sample times never decrease along the timeline. *)
Definition monotone (timeline : list frame) : Prop :=
  Sorted Z.le (map frame_time timeline).

(** ** Output and exceptions *)

(** The exceptions the modelled statements can raise: [statistics.mean] on
    empty data, and [/] with a zero divisor. *)
Inductive exn :=
| StatisticsError
| ZeroDivisionError.

(** One constructor per [print] call of the modelled code, carrying the
    values the format string interpolates (the number formats [.2f], [.3f],
    [5.1f] are a presentation of these values and are not modelled). *)
Inductive line :=
| LHitobjects (n : nat)
| LReplayFrames (n : nat)
| LKeptErrors (n : nat)
| LNoUsable
| LSummaryHeader
| LTotalSamples (total : nat)
| LMeanBiasPx (mean_dx mean_dy : Qc)
| LOnTabletArea
| LDxMm (mean_dx_mm : Qc)
| LDyMm (mean_dy_mm : Qc)
| LQuadrantHeader
| LQuadrant (name : string) (pct : Qc)
| LSuggestionHeader
| LNoAdjustment (adjust_threshold_mm : Qc)
| LTendToAim
| LTooFarX (abs_dx_mm : Qc) (dir_x : string)
| LTooFarY (abs_dy_mm : Qc) (dir_y : string)
| LToCompensate
| LShiftX (magnitude : Qc) (corr_dir_x : string)
| LShiftY (magnitude : Qc) (corr_dir_y : string)
| LAdjustNote.

(** A computation prints lines and then either raises or returns. *)
Definition M (A : Type) : Type := (list line * (exn + A))%type.

Definition ret {A} (a : A) : M A := ([], inr a).

Definition bind {A B} (m : M A) (k : A -> M B) : M B :=
  match m with
  | (out, inl e) => (out, inl e)
  | (out, inr a) => let (out', r) := k a in (out ++ out', r)
  end.

Definition raise {A} (e : exn) : M A := ([], inl e).

Definition print (l : line) : M unit := ([l], inr tt).

Definition printed {A} (m : M A) : list line := fst m.

Definition raises {A} (m : M A) : Prop := exists e, snd m = inl e.

Declare Scope py_scope.
Delimit Scope py_scope with py.
Notation "x <- m ;; k" := (bind m (fun x => k))
  (at level 61, m at next level, right associativity) : py_scope.
Notation "m ;;; k" := (bind m (fun _ => k))
  (at level 61, right associativity) : py_scope.

(** ** Float arithmetic, idealised *)

Definition Qc_of_Z (z : Z) : Qc := Q2Qc (inject_Z z).
Definition Qc_of_nat (n : nat) : Qc := Qc_of_Z (Z.of_nat n).

Definition Qcltb (x y : Qc) : bool :=
  match (x ?= y)%Qc with Lt => true | _ => false end.

Definition Qcleb (x y : Qc) : bool :=
  match (x ?= y)%Qc with Gt => false | _ => true end.

Definition Qceqb (x y : Qc) : bool :=
  match (x ?= y)%Qc with Eq => true | _ => false end.

(** [a / b]: raises [ZeroDivisionError] when [b] is zero. *)
Definition truediv (a b : Qc) : M Qc :=
  if Qceqb b 0 then raise ZeroDivisionError else ret (a / b)%Qc.

Definition fsum (data : list Qc) : Qc := fold_left Qcplus data 0%Qc.

(** [statistics.mean(data)]: raises [StatisticsError] on empty data, else
    the exact sum over the number of data points. *)
Definition mean (data : list Qc) : M Qc :=
  match data with
  | [] => raise StatisticsError
  | _ :: _ => ret (fsum data / Qc_of_nat (length data))%Qc
  end.

(** [math.hypot(dx, dy)] as a real number. *)
Definition hypot (dx dy : Qc) : R :=
  sqrt (Q2R dx * Q2R dx + Q2R dy * Q2R dy).

(** [math.hypot(dx, dy) <= include_radius], decided in exact arithmetic
    without extracting the root: the radius is not negative and the squared
    distance is at most the squared radius ([within_radius_hypot] below
    relates it to [hypot]). *)
Definition within_radius (dx dy include_radius : Qc) : bool :=
  Qcleb 0 include_radius &&
  Qcleb (dx * dx + dy * dy)%Qc (include_radius * include_radius)%Qc.

(** ** Analysis of one replay *)

(** A hit object [(time_ms, x, y)] of the beatmap, all three integers. *)
Definition hitobject := (Z * Z * Z)%type.

(** The deviation of a matched frame from its hit object: [(dx, dy)]. *)
Definition deviation (f : frame) (x_obj y_obj : Z) : Qc * Qc :=
  ((frame_x f - Qc_of_Z x_obj)%Qc, (frame_y f - Qc_of_Z y_obj)%Qc).

(** The loop over the hit objects in [analyze_replay_with_md5]: the list
    [errors] it builds.  A hit object without a frame is skipped by
    [continue]. *)
Fixpoint collect_errors (hitobjects : list hitobject) (timeline : list frame)
    (include_radius : Qc) : list (Qc * Qc) :=
  match hitobjects with
  | [] => []
  | (t_obj, x_obj, y_obj) :: rest =>
      match find_closest_frame timeline t_obj 80 with
      | None => collect_errors rest timeline include_radius
      | Some frame =>
          let '(dx, dy) := deviation frame x_obj y_obj in
          if within_radius dx dy include_radius
          then (dx, dy) :: collect_errors rest timeline include_radius
          else collect_errors rest timeline include_radius
      end
  end.

Local Open Scope py_scope.

(** [analyze_replay_with_md5] from the point where the replay is loaded and
    its beatmap found (the file lookups before that return [[]] on failure):
    [hitobjects] is the parsed beatmap, [replay_data] the replay's events. *)
Definition analyze_replay_with_md5 (hitobjects : list hitobject)
    (replay_data : list replay_event) (include_radius : Qc)
  : M (list (Qc * Qc)) :=
  print (LHitobjects (length hitobjects)) ;;;
  let timeline := build_replay_timeline replay_data in
  print (LReplayFrames (length timeline)) ;;;
  let errors := collect_errors hitobjects timeline include_radius in
  print (LKeptErrors (length errors)) ;;;
  ret errors.

(** ** Summary and area adjustment *)

(** The dict [quad_counts], in insertion order (the order [items()] yields). *)
Definition quad_counts_init : list (string * nat) :=
  [("top-left", 0%nat); ("top-right", 0%nat);
   ("bottom-left", 0%nat); ("bottom-right", 0%nat)]%string.

(** [quad_counts[name] += 1].  Only the four literal keys are ever used, so
    the key is always present. *)
Fixpoint incr (name : string) (counts : list (string * nat))
  : list (string * nat) :=
  match counts with
  | [] => []
  | (k, c) :: rest =>
      if String.eqb k name then (k, S c) :: rest
      else (k, c) :: incr name rest
  end.

(** The [if]/[elif] chain choosing the bucket of one error. *)
Definition quadrant_of (e : Qc * Qc) : string :=
  let '(dx, dy) := e in
  if Qcltb dx 0 && Qcltb dy 0 then "top-left"
  else if Qcleb 0 dx && Qcltb dy 0 then "top-right"
  else if Qcltb dx 0 && Qcleb 0 dy then "bottom-left"
  else "bottom-right".

Definition count_quadrants (errors : list (Qc * Qc)) : list (string * nat) :=
  fold_left (fun counts e => incr (quadrant_of e) counts) errors quad_counts_init.

(** The loop printing one percentage per bucket. *)
Fixpoint print_quadrants (items : list (string * nat)) (total : nat) : M unit :=
  match items with
  | [] => ret tt
  | (name, count) :: rest =>
      q <- truediv (Qc_of_nat count) (Qc_of_nat total) ;;
      let pct := (q * Qc_of_Z 100)%Qc in
      print (LQuadrant name pct) ;;;
      print_quadrants rest total
  end.

(** The block under [# Area adjustment suggestion], after its header line:
    the joint threshold test, and behind it the bias and the shift on each
    axis. *)
Definition suggest_adjustment
    (mean_dx mean_dy mean_dx_mm mean_dy_mm adjust_threshold_mm : Qc) : M unit :=
  (let abs_dx_mm := Qcabs mean_dx_mm in
   let abs_dy_mm := Qcabs mean_dy_mm in
   if Qcltb abs_dx_mm adjust_threshold_mm && Qcltb abs_dy_mm adjust_threshold_mm
   then print (LNoAdjustment adjust_threshold_mm)
   else
     print LTendToAim ;;;
     let dir_x := if Qcltb 0 mean_dx then "right" else "left" in
     let dir_y := if Qcltb 0 mean_dy then "down" else "up" in
     print (LTooFarX abs_dx_mm dir_x) ;;;
     print (LTooFarY abs_dy_mm dir_y) ;;;
     let corr_dx_mm := (- mean_dx_mm)%Qc in
     let corr_dy_mm := (- mean_dy_mm)%Qc in
     let corr_dir_x := if Qcltb 0 corr_dx_mm then "right" else "left" in
     let corr_dir_y := if Qcltb 0 corr_dy_mm then "down" else "up" in
     print LToCompensate ;;;
     print (LShiftX (Qcabs corr_dx_mm) corr_dir_x) ;;;
     print (LShiftY (Qcabs corr_dy_mm) corr_dir_y) ;;;
     print LAdjustNote)%string.

Definition summarize_errors (errors : list (Qc * Qc))
    (area_w_mm area_h_mm adjust_threshold_mm : Qc) : M unit :=
  match errors with
  | [] => print LNoUsable
  | _ :: _ =>
      let dxs := map fst errors in
      let dys := map snd errors in
      mean_dx <- mean dxs ;;
      mean_dy <- mean dys ;;
      qx <- truediv mean_dx (Qc_of_Z 512) ;;
      let mean_dx_mm := (qx * area_w_mm)%Qc in
      qy <- truediv mean_dy (Qc_of_Z 384) ;;
      let mean_dy_mm := (qy * area_h_mm)%Qc in
      let quad_counts := count_quadrants errors in
      let total := length errors in
      print LSummaryHeader ;;;
      print (LTotalSamples total) ;;;
      print (LMeanBiasPx mean_dx mean_dy) ;;;
      print LOnTabletArea ;;;
      print (LDxMm mean_dx_mm) ;;;
      print (LDyMm mean_dy_mm) ;;;
      print LQuadrantHeader ;;;
      print_quadrants quad_counts total ;;;
      print LSuggestionHeader ;;;
      suggest_adjustment mean_dx mean_dy mean_dx_mm mean_dy_mm adjust_threshold_mm
  end.

(** ** Values the properties are stated with *)

(** The value [statistics.mean] returns on non-empty data. *)
Definition mean_value (data : list Qc) : Qc :=
  (fsum data / Qc_of_nat (length data))%Qc.

(** The bias in millimetres on each axis. *)
Definition mean_dx_mm_of (errors : list (Qc * Qc)) (area_w_mm : Qc) : Qc :=
  (mean_value (map fst errors) / Qc_of_Z 512 * area_w_mm)%Qc.

Definition mean_dy_mm_of (errors : list (Qc * Qc)) (area_h_mm : Qc) : Qc :=
  (mean_value (map snd errors) / Qc_of_Z 384 * area_h_mm)%Qc.

(** The line printed for one bucket. *)
Definition quadrant_line (total : nat) (item : string * nat) : line :=
  LQuadrant (fst item) (Qc_of_nat (snd item) / Qc_of_nat total * Qc_of_Z 100)%Qc.

(** Both axes are under the threshold. *)
Definition below_threshold (errors : list (Qc * Qc))
    (area_w_mm area_h_mm adjust_threshold_mm : Qc) : Prop :=
  (Qcabs (mean_dx_mm_of errors area_w_mm) < adjust_threshold_mm)%Qc /\
  (Qcabs (mean_dy_mm_of errors area_h_mm) < adjust_threshold_mm)%Qc.

(** The lines of the suggestion block that carry a decision or a value. *)
Definition is_suggestion_line (l : line) : bool :=
  match l with
  | LNoAdjustment _ | LTooFarX _ _ | LTooFarY _ _ | LShiftX _ _ | LShiftY _ _ => true
  | _ => false
  end.

(** A vector with integer components. *)
Definition vec (dx dy : Z) : Qc * Qc := (Qc_of_Z dx, Qc_of_Z dy).

(** The four vectors of the symmetric example. *)
Definition four_vectors : list (Qc * Qc) :=
  [vec 10 0; vec (-10) 0; vec 0 10; vec 0 (-10)].

(** [f] is the first frame of the timeline at minimal distance from the
    target: every frame before it is strictly farther, none after it is
    closer. *)
Definition is_first_min (target_time : Z) (timeline : list frame) (f : frame)
  : Prop :=
  exists pre post,
    timeline = pre ++ f :: post /\
    (forall g, In g pre -> time_dist target_time f < time_dist target_time g) /\
    (forall g, In g post -> time_dist target_time f <= time_dist target_time g).

(** The percentage a printed line carries: that of a bucket line, zero on
    every other line. *)
Definition line_pct (l : line) : Qc :=
  match l with
  | LQuadrant _ pct => pct
  | _ => 0%Qc
  end.

(** ** Beatmap files *)

(** [s.split(sep)] for a one-character separator: the pieces of [s] between
    the separators, at least one piece. *)
Fixpoint split_on (sep : ascii) (s : string) : list string :=
  match s with
  | EmptyString => [EmptyString]
  | String c rest =>
      if Ascii.eqb c sep then EmptyString :: split_on sep rest
      else match split_on sep rest with
           | [] => [String c EmptyString]
           | piece :: pieces => String c piece :: pieces
           end
  end.

(** [s.lower()] and [s.endswith(suffix)] on ASCII file names. *)
Definition lower_ascii (c : ascii) : ascii :=
  let n := nat_of_ascii c in
  if (65 <=? n)%nat && (n <=? 90)%nat then ascii_of_nat (n + 32) else c.

Fixpoint lower (s : string) : string :=
  match s with
  | EmptyString => EmptyString
  | String c rest => String (lower_ascii c) (lower rest)
  end.

Definition endswith (s suffix : string) : bool :=
  let n := String.length s in
  let m := String.length suffix in
  (m <=? n)%nat && String.eqb (substring (n - m) m s) suffix.

(** The test [name.lower().endswith(".osu")]. *)
Definition is_osu_name (name : string) : bool :=
  endswith (lower name) ".osu".

(** The size of the chunks [md5_file] reads. *)
Definition chunk_size : nat := Z.to_nat 8192.

Definition inspect {A : Type} (a : A) : {b : A | a = b} := exist _ a eq_refl.

(** The loop of [md5_file]: [f.read(size)] takes the next [size] bytes of
    what is left of the file, the loop ends on the empty chunk, and
    [h.update(chunk)] adds the chunk to the bytes the hash object has been
    fed. *)
Equations? feed_chunks (size : nat) (rest : list Byte.byte) (h : list Byte.byte)
  : list Byte.byte by wf (length rest) lt :=
  feed_chunks size rest h with inspect (firstn size rest) := {
    | exist _ [] _ => h
    | exist _ (c :: cs) E => feed_chunks size (skipn size rest) (h ++ c :: cs) }.
Proof.
  destruct size as [|m]; [discriminate|].
  destruct rest as [|b rest]; [discriminate|].
  rewrite length_skipn. simpl. lia.
Qed.

(** An entry of a directory: its name and its bytes, [None] when the file
    cannot be opened or read. *)
Record dir_entry := mkEntry {
  entry_name : string;
  entry_bytes : option (list Byte.byte)
}.

(** [os.path.join(root, name)], kept as the directory and the entry it
    names. *)
Definition osu_path := (string * dir_entry)%type.

(** A replay as [osrparse] loads it: the two attributes the beatmap hash is
    read from ([None] when the attribute is absent or [None]) and the
    events. *)
Record replay := mkReplay {
  beatmap_hash : option string;
  beatmap_md5 : option string;
  replay_data : list replay_event
}.

(** What is at [osr_path]: no file, a file [Replay.from_path] raises on, or
    a replay. *)
Inductive osr_file :=
| OsrMissing
| OsrUnreadable
| OsrReplay (r : replay).

(** The lines [analyze_replay_with_md5] prints before the analysis proper. *)
Inductive lookup_line :=
| LAnalyzing (osr_path : string)
| LReplayNotFound (osr_path : string)
| LLoadFailed
| LNoBeatmapHash
| LNoMatchingOsu
| LBeatmapDetected (root name : string).

Inductive report_line :=
| Lookup (l : lookup_line)
| Analysis (l : line).

(** Truth value of an attribute holding a string or [None]. *)
Definition truthy (s : option string) : bool :=
  match s with
  | Some (String _ _) => true
  | _ => false
  end.

Section Builtins.

(** Functions of Python and its library the code calls, taken as they come:
    [str.strip], [int] on a string ([None] when it raises [ValueError]), the
    hex digest [hashlib.md5] has for the bytes fed to it, and the lines
    [readlines] yields for a file's bytes opened as text. *)
Variable strip : string -> string.
Variable py_int : string -> option Z.
Variable md5_hexdigest : list Byte.byte -> string.
Variable text_lines : list Byte.byte -> list string.

(** The loop of [parse_hitobjects] over the lines of the file, with the
    flag [in_hitobjects]. *)
Fixpoint parse_lines (lines : list string) (in_hitobjects : bool)
  : list hitobject :=
  match lines with
  | [] => []
  | raw :: rest =>
      let line := strip raw in
      if String.eqb line "" then parse_lines rest in_hitobjects
      else if String.prefix "[HitObjects]" line then parse_lines rest true
      else if negb in_hitobjects then parse_lines rest in_hitobjects
      else
        let parts := split_on "," line in
        if (length parts <? 3)%nat then parse_lines rest in_hitobjects
        else
          match py_int (nth 0 parts ""%string),
                py_int (nth 1 parts ""%string),
                py_int (nth 2 parts ""%string) with
          | Some x, Some y, Some t => (t, x, y) :: parse_lines rest in_hitobjects
          | _, _, _ => parse_lines rest in_hitobjects
          end
  end.

Definition parse_hitobjects (lines : list string) : list hitobject :=
  parse_lines lines false.

(** [md5_file]: [None] when opening or reading raises. *)
Definition md5_file (content : option (list Byte.byte)) : option string :=
  match content with
  | None => None
  | Some data => Some (md5_hexdigest (feed_chunks chunk_size data []))
  end.

(** The inner loop of [find_osu_by_md5], over the files of one directory. *)
Fixpoint find_in_files (root : string) (files : list dir_entry)
    (md5_hash : string) : option osu_path :=
  match files with
  | [] => None
  | e :: rest =>
      if negb (is_osu_name (entry_name e)) then find_in_files root rest md5_hash
      else
        match md5_file (entry_bytes e) with
        | Some digest =>
            if String.eqb digest md5_hash then Some (root, e)
            else find_in_files root rest md5_hash
        | None => find_in_files root rest md5_hash
        end
  end.

(** [find_osu_by_md5] over what [os.walk] yields: the directories with
    their files, in order. *)
Fixpoint find_osu_by_md5 (walk : list (string * list dir_entry))
    (md5_hash : string) : option osu_path :=
  match walk with
  | [] => None
  | (root, files) :: rest =>
      match find_in_files root files md5_hash with
      | Some path => Some path
      | None => find_osu_by_md5 rest md5_hash
      end
  end.

(** The files [os.walk] comes by, in its order, each with its directory. *)
Definition walk_files (walk : list (string * list dir_entry)) : list osu_path :=
  flat_map (fun d => map (pair (fst d)) (snd d)) walk.

(** A file the search accepts: named [*.osu] whatever the case, readable,
    and with the digest looked for. *)
Definition matches_hash (md5_hash : string) (path : osu_path) : bool :=
  is_osu_name (entry_name (snd path)) &&
  match entry_bytes (snd path) with
  | Some data => String.eqb (md5_hexdigest data) md5_hash
  | None => false
  end.

(** The lines of the file at a path ([open] and [readlines]). *)
Definition read_lines (path : osu_path) : list string :=
  match entry_bytes (snd path) with
  | Some data => text_lines data
  | None => []
  end.

(** The hash the replay is looked up by: [beatmap_hash], or [beatmap_md5]
    when that is missing or empty. *)
Definition replay_hash (r : replay) : option string :=
  if truthy (beatmap_hash r) then beatmap_hash r else beatmap_md5 r.

(** The whole of [analyze_replay_with_md5], from the path of the replay:
    [osr] is what the path holds and [walk] the Songs folder. *)
Definition analyze_replay_file (osr_path : string) (osr : osr_file)
    (walk : list (string * list dir_entry)) (include_radius : Qc)
  : list report_line * (exn + list (Qc * Qc)) :=
  match osr with
  | OsrMissing =>
      ([Lookup (LAnalyzing osr_path); Lookup (LReplayNotFound osr_path)], inr [])
  | OsrUnreadable =>
      ([Lookup (LAnalyzing osr_path); Lookup LLoadFailed], inr [])
  | OsrReplay r =>
      if negb (truthy (replay_hash r))
      then ([Lookup (LAnalyzing osr_path); Lookup LNoBeatmapHash], inr [])
      else
        match replay_hash r with
        | None => ([Lookup (LAnalyzing osr_path); Lookup LNoBeatmapHash], inr [])
        | Some hash =>
            match find_osu_by_md5 walk hash with
            | None =>
                ([Lookup (LAnalyzing osr_path); Lookup LNoMatchingOsu], inr [])
            | Some path =>
                let hitobjects := parse_hitobjects (read_lines path) in
                let (out, result) :=
                  analyze_replay_with_md5 hitobjects (replay_data r) include_radius in
                (Lookup (LAnalyzing osr_path)
                 :: Lookup (LBeatmapDetected (fst path) (entry_name (snd path)))
                 :: map Analysis out, result)
            end
        end
  end.

(** What the analysis of one replay file prints, and the errors it
    returns. *)
Definition replay_output (walk : list (string * list dir_entry))
    (file : string * osr_file) : list report_line :=
  fst (analyze_replay_file (fst file) (snd file) walk (Qc_of_Z 80)).

Definition replay_errors (walk : list (string * list dir_entry))
    (file : string * osr_file) : list (Qc * Qc) :=
  match snd (analyze_replay_file (fst file) (snd file) walk (Qc_of_Z 80)) with
  | inr errs => errs
  | inl _ => []
  end.

(** The loop of [interactive_main] over the replay files, extending
    [all_errors] with the errors of each. *)
Fixpoint analyze_all (replay_files : list (string * osr_file))
    (walk : list (string * list dir_entry)) (all_errors : list (Qc * Qc))
  : list report_line * (exn + list (Qc * Qc)) :=
  match replay_files with
  | [] => ([], inr all_errors)
  | (rp, osr) :: rest =>
      match analyze_replay_file rp osr walk (Qc_of_Z 80) with
      | (out, inl e) => (out, inl e)
      | (out, inr errs) =>
          let (out', result) := analyze_all rest walk (all_errors ++ errs) in
          (out ++ out', result)
      end
  end.

(** [interactive_main] from the list of replay files to the summary: the
    analysis of every replay, then [summarize_errors] with a threshold of
    0.25 mm. *)
Definition analyze_and_summarize (replay_files : list (string * osr_file))
    (walk : list (string * list dir_entry)) (area_w_mm area_h_mm : Qc)
  : list report_line * (exn + unit) :=
  match analyze_all replay_files walk [] with
  | (out, inl e) => (out, inl e)
  | (out, inr all_errors) =>
      let (out', result) :=
        summarize_errors all_errors area_w_mm area_h_mm (Q2Qc (25 # 100)) in
      (out ++ map Analysis out', result)
  end.

End Builtins.

(** ** Sample files *)

(** Stand-ins for the builtins on the samples: decimal digits with an
    optional minus sign for [int], no surrounding blanks to strip, the bytes
    themselves as their digest, and the pieces between line feeds as the
    lines. *)
Fixpoint digits_value (s : string) (acc : Z) : option Z :=
  match s with
  | EmptyString => Some acc
  | String c rest =>
      let n := nat_of_ascii c in
      if (48 <=? n)%nat && (n <=? 57)%nat
      then digits_value rest (acc * 10 + Z.of_nat (n - 48))
      else None
  end.

Definition sample_int (s : string) : option Z :=
  match s with
  | EmptyString => None
  | String "-" EmptyString => None
  | String "-" rest => option_map Z.opp (digits_value rest 0)
  | _ => digits_value s 0
  end.

Definition sample_strip (s : string) : string := s.

Definition sample_digest (data : list Byte.byte) : string :=
  string_of_list_byte data.

Definition sample_text_lines (data : list Byte.byte) : list string :=
  split_on "010" (string_of_list_byte data).

(** The lines of a small beatmap. *)
Definition sample_beatmap : list string :=
  ["osu file format v14"; "256,192,500"; "[HitObjects]";
   "256,192,1000,1,0,0:0:0:0:"; "oops"; "100,x,2000"; "[Colours]";
   "-3,40,1500"]%string.

(** A Songs folder of one directory: a file that is no beatmap, and a
    beatmap with one hit object at the origin at time 0. *)
Definition sample_osu_bytes : list Byte.byte :=
  list_byte_of_string ("[HitObjects]" ++ String "010" "0,0,0")%string.

Definition sample_walk : list (string * list dir_entry) :=
  [("Songs/map"%string,
    [mkEntry "notes.txt" None; mkEntry "Map.OSU" (Some sample_osu_bytes)])].

(** ** Sample data *)

(** A timeline with frames at 10, 20, 100 and 200 ms. *)
Definition sample_timeline : list frame :=
  [(10, Qc_of_Z 0, Qc_of_Z 0); (20, Qc_of_Z 1, Qc_of_Z 1);
   (100, Qc_of_Z 2, Qc_of_Z 2); (200, Qc_of_Z 3, Qc_of_Z 3)].

(** One hit object at the origin and a replay of one event on it. *)
Definition sample_hitobjects : list hitobject := [(0, 0, 0)].
Definition sample_replay : list replay_event :=
  [mkEvent 0 (Qc_of_Z 0) (Qc_of_Z 0)].

(** A replay whose only frame is 3 px right of and 4 px below the origin. *)
Definition sample_replay_3_4 : list replay_event :=
  [mkEvent 0 (Qc_of_Z 3) (Qc_of_Z 4)].

(** Two replay files: one of the sample beatmap, known by [beatmap_md5]
    only, and one that does not exist. *)
Definition sample_replay_files : list (string * osr_file) :=
  [("a.osr"%string,
    OsrReplay (mkReplay None (Some (sample_digest sample_osu_bytes))
                 sample_replay_3_4));
   ("b.osr"%string, OsrMissing)].

(** ** Proof automation *)

(** Equality of two closed rationals, by comparing their fractions. *)
Ltac qc_eq := apply Qc_is_canon; vm_compute; reflexivity.

(** Monotonicity of the sample timeline, frame by frame. *)
Ltac solve_monotone :=
  unfold monotone, sample_timeline; simpl;
  repeat first [ apply Sorted_nil | apply Sorted_cons
               | apply HdRel_nil | apply HdRel_cons ];
  unfold frame_time; simpl; lia.

(** * Properties *)

(** ** The timeline is monotone by construction *)

Lemma build_from_lower_bound (replay_data : list replay_event) (t : Z) :
  Forall (fun e => 0 <= time_delta e) replay_data ->
  Forall (fun f => t <= frame_time f) (build_from t replay_data).
Proof.
  revert t. induction replay_data as [|evt rest IH]; intros t Hpos; simpl.
  - constructor.
  - inversion Hpos as [|? ? Hevt Hrest]; subst. constructor.
    + unfold frame_time; simpl. lia.
    + eapply Forall_impl; [|apply (IH (t + time_delta evt) Hrest)].
      intros f Hf. simpl in Hf. lia.
Qed.

Lemma build_from_monotone (replay_data : list replay_event) (t : Z) :
  Forall (fun e => 0 <= time_delta e) replay_data ->
  monotone (build_from t replay_data).
Proof.
  unfold monotone. revert t.
  induction replay_data as [|evt rest IH]; intros t Hpos; simpl.
  - constructor.
  - inversion Hpos as [|? ? Hevt Hrest]; subst. constructor.
    + apply IH; assumption.
    + pose proof (build_from_lower_bound rest (t + time_delta evt) Hrest) as Hlb.
      destruct rest as [|e2 rest']; simpl in *; constructor.
      inversion Hlb; subst. assumption.
Qed.

Lemma build_replay_timeline_monotone (replay_data : list replay_event) :
  Forall (fun e => 0 <= time_delta e) replay_data ->
  monotone (build_replay_timeline replay_data).
Proof. apply build_from_monotone. Qed.

(** ** The scan and its early exit *)

Section Scan.

Variable target_time : Z.

Local Abbreviation dist := (time_dist target_time).

Lemma monotone_tail (f : frame) (rest : list frame) :
  monotone (f :: rest) -> monotone rest.
Proof. unfold monotone; simpl. intros H. inversion H; assumption. Qed.

Lemma monotone_head_le (f : frame) (rest : list frame) :
  monotone (f :: rest) ->
  forall g, In g rest -> frame_time f <= frame_time g.
Proof.
  unfold monotone; simpl. intros H g Hg.
  assert (Htr : Relations_1.Transitive Z.le) by (intros a b c; apply Z.le_trans).
  pose proof (Sorted_extends Htr H) as Hall.
  rewrite Forall_forall in Hall. apply Hall. apply in_map. assumption.
Qed.

(** Once no remaining frame is closer than [best_dt], the full scan leaves
    the state alone. *)
Lemma scan_all_stable (rest : list frame) (best : option frame) (d : Z) :
  (forall g, In g rest -> d <= dist g) ->
  scan_all rest target_time (best, Some d) = (best, Some d).
Proof.
  induction rest as [|[[t x] y] rest IH]; intros Hfar; simpl.
  - reflexivity.
  - assert (Hd : d <= dist (t, x, y)) by (apply Hfar; left; reflexivity).
    unfold time_dist, frame_time in Hd; simpl in Hd.
    destruct (Z.ltb_spec (Z.abs (t - target_time)) d); [lia|].
    apply IH. intros g Hg. apply Hfar. right. assumption.
Qed.

Local Abbreviation update := (update_best target_time).

Lemma scan_cons (f : frame) (rest : list frame) (st : scan_state) :
  scan (f :: rest) target_time st =
  if should_break (frame_time f) target_time (snd (update f st))
  then update f st else scan rest target_time (update f st).
Proof. destruct f as [[t x] y]. reflexivity. Qed.

Lemma scan_all_cons (f : frame) (rest : list frame) (st : scan_state) :
  scan_all (f :: rest) target_time st = scan_all rest target_time (update f st).
Proof. destruct f as [[t x] y]. reflexivity. Qed.

(** The [break] is sound on a monotone timeline: the scan ends in the state
    the full scan ends in. *)
Lemma scan_eq_scan_all (timeline : list frame) (st : scan_state) :
  monotone timeline ->
  scan timeline target_time st = scan_all timeline target_time st.
Proof.
  revert st. induction timeline as [|f rest IH]; intros st Hmono.
  - reflexivity.
  - rewrite scan_cons, scan_all_cons. generalize (update f st). intros st'.
    destruct (should_break (frame_time f) target_time (snd st')) eqn:Hbrk.
    + destruct st' as [best' [d|]]; unfold should_break in Hbrk; simpl in Hbrk;
        [|rewrite andb_false_r in Hbrk; discriminate].
      apply andb_true_iff in Hbrk. destruct Hbrk as [Hgt Hfar].
      apply Z.gtb_lt in Hgt. apply Z.gtb_lt in Hfar.
      symmetry. apply scan_all_stable. intros g Hg.
      pose proof (monotone_head_le _ _ Hmono g Hg) as Hle.
      unfold time_dist. lia.
    + apply IH. eapply monotone_tail; eassumption.
Qed.

(** The full scan from a state holding [b] ends on [b] itself when nothing
    is strictly closer, and otherwise on the first strictly closer minimum. *)
Lemma scan_all_from (timeline : list frame) (b : frame) :
  exists b',
    scan_all timeline target_time (Some b, Some (dist b))
      = (Some b', Some (dist b')) /\
    ((b' = b /\ forall g, In g timeline -> dist b <= dist g) \/
     (dist b' < dist b /\ is_first_min target_time timeline b')).
Proof.
  revert b. induction timeline as [|[[t x] y] rest IH]; intros b; simpl.
  - exists b. split; [reflexivity|]. left. split; [reflexivity|]. intros g [].
  - change (Z.abs (t - target_time)) with (dist (t, x, y)).
    destruct (Z.ltb_spec (dist (t, x, y)) (dist b)) as [Hlt|Hge].
    + destruct (IH (t, x, y)) as [b' [Heq [[-> Hall]|[Hlt' Hmin]]]].
      * exists (t, x, y). split; [exact Heq|]. right. split; [exact Hlt|].
        exists [], rest. split; [reflexivity|]. split; [intros g []|exact Hall].
      * exists b'. split; [exact Heq|]. right. split; [lia|].
        destruct Hmin as [pre [post [-> [Hpre Hpost]]]].
        exists ((t, x, y) :: pre), post. split; [reflexivity|].
        split; [|exact Hpost].
        intros g [<-|Hg]; [lia|apply Hpre; exact Hg].
    + destruct (IH b) as [b' [Heq [[-> Hall]|[Hlt' Hmin]]]].
      * exists b. split; [exact Heq|]. left. split; [reflexivity|].
        intros g [<-|Hg]; [lia|apply Hall; exact Hg].
      * exists b'. split; [exact Heq|]. right. split; [exact Hlt'|].
        destruct Hmin as [pre [post [-> [Hpre Hpost]]]].
        exists ((t, x, y) :: pre), post. split; [reflexivity|].
        split; [|exact Hpost].
        intros g [<-|Hg]; [lia|apply Hpre; exact Hg].
Qed.

(** On a non-empty timeline the full scan ends on the first minimum. *)
Lemma scan_all_first_min (f : frame) (rest : list frame) :
  exists b,
    scan_all (f :: rest) target_time (None, None) = (Some b, Some (dist b)) /\
    is_first_min target_time (f :: rest) b.
Proof.
  destruct f as [[t x] y]. simpl.
  change (Z.abs (t - target_time)) with (dist (t, x, y)).
  destruct (scan_all_from rest (t, x, y)) as [b' [Heq [[-> Hall]|[Hlt Hmin]]]].
  - exists (t, x, y). split; [exact Heq|].
    exists [], rest. split; [reflexivity|]. split; [intros g []|exact Hall].
  - exists b'. split; [exact Heq|].
    destruct Hmin as [pre [post [-> [Hpre Hpost]]]].
    exists ((t, x, y) :: pre), post. split; [reflexivity|].
    split; [|exact Hpost].
    intros g [<-|Hg]; [lia|apply Hpre; exact Hg].
Qed.

Lemma first_min_in (timeline : list frame) (f : frame) :
  is_first_min target_time timeline f -> In f timeline.
Proof.
  intros [pre [post [-> _]]]. apply in_or_app. right. left. reflexivity.
Qed.

Lemma first_min_le (timeline : list frame) (f : frame) :
  is_first_min target_time timeline f ->
  forall g, In g timeline -> dist f <= dist g.
Proof.
  intros [pre [post [-> [Hpre Hpost]]]] g Hg.
  apply in_app_or in Hg. destruct Hg as [Hg|[<-|Hg]].
  - apply Z.lt_le_incl. apply Hpre. exact Hg.
  - lia.
  - apply Hpost. exact Hg.
Qed.

(** What [find_closest_frame] returns on a monotone timeline. *)
Lemma find_closest_frame_spec (timeline : list frame) (max_delta : Z) :
  monotone timeline ->
  match find_closest_frame timeline target_time max_delta with
  | Some f => is_first_min target_time timeline f /\ dist f <= max_delta
  | None =>
      timeline = [] \/
      exists f, is_first_min target_time timeline f /\ max_delta < dist f
  end.
Proof.
  intros Hmono. unfold find_closest_frame.
  rewrite (scan_eq_scan_all _ _ Hmono).
  destruct timeline as [|f rest].
  - simpl. left. reflexivity.
  - destruct (scan_all_first_min f rest) as [b [-> Hmin]].
    destruct (Z.gtb_spec (dist b) max_delta) as [Hgt|Hle].
    + right. exists b. split; [exact Hmin|lia].
    + split; [exact Hmin|lia].
Qed.

End Scan.

Lemma monotone_app_later (pre post : list frame) (f : frame) :
  monotone (pre ++ f :: post) ->
  forall g, In g post -> frame_time f <= frame_time g.
Proof.
  induction pre as [|p pre IH]; simpl; intros Hmono.
  - apply monotone_head_le. exact Hmono.
  - apply IH. eapply monotone_tail. exact Hmono.
Qed.

Lemma monotone_singleton (f : frame) : monotone [f].
Proof. unfold monotone; simpl. repeat constructor. Qed.

(** C1: on a timeline whose sample times never decrease, the early exit
    loses nothing: the scan ends in the state of the full scan, every frame
    [find_closest_frame] returns is a frame of the timeline at minimal
    distance in time from the target, and a frame is returned whenever some
    frame lies within [max_delta]. *)
Theorem find_closest_frame_nearest
    (timeline : list frame) (target_time max_delta : Z) :
  monotone timeline ->
  scan timeline target_time (None, None)
    = scan_all timeline target_time (None, None) /\
  (forall f, find_closest_frame timeline target_time max_delta = Some f ->
     In f timeline /\
     forall g, In g timeline ->
       time_dist target_time f <= time_dist target_time g) /\
  ((exists g, In g timeline /\ time_dist target_time g <= max_delta) ->
   exists f, find_closest_frame timeline target_time max_delta = Some f).
Proof.
  intros Hmono. split; [apply scan_eq_scan_all; exact Hmono|].
  pose proof (find_closest_frame_spec target_time timeline max_delta Hmono) as Hspec.
  destruct (find_closest_frame timeline target_time max_delta) as [b|].
  - destruct Hspec as [Hmin _]. split.
    + intros f Hf. injection Hf as <-. split.
      * eapply first_min_in. exact Hmin.
      * apply first_min_le. exact Hmin.
    + intros _. exists b. reflexivity.
  - split; [intros f Hf; discriminate|].
    intros [g [Hg Hclose]]. exfalso.
    destruct Hspec as [->|[f [Hmin Hfar]]]; [destruct Hg|].
    pose proof (first_min_le _ _ _ Hmin g Hg). lia.
Qed.

(** C3: with a frame at [T - k] and a frame at [T + k], both within
    [max_delta], on a monotone timeline, a frame is returned that is never
    the later one; when no frame is closer than [k], so that the two tie for
    the minimum, the returned frame is the first frame of the timeline at
    that distance and its time is [T - k]. *)
Theorem find_closest_frame_tie_earlier
    (timeline : list frame) (T k max_delta : Z) (f1 f2 : frame) :
  monotone timeline ->
  0 <= k <= max_delta ->
  In f1 timeline -> frame_time f1 = T - k ->
  In f2 timeline -> frame_time f2 = T + k ->
  exists f,
    find_closest_frame timeline T max_delta = Some f /\
    is_first_min T timeline f /\
    (0 < k -> frame_time f <> T + k) /\
    ((forall g, In g timeline -> k <= time_dist T g) -> frame_time f = T - k).
Proof.
  intros Hmono Hk Hin1 Ht1 Hin2 Ht2.
  assert (Hd1 : time_dist T f1 = k) by (unfold time_dist; lia).
  pose proof (find_closest_frame_spec T timeline max_delta Hmono) as Hspec.
  destruct (find_closest_frame timeline T max_delta) as [b|].
  - destruct Hspec as [Hmin Hle]. exists b.
    split; [reflexivity|]. split; [exact Hmin|].
    assert (Hlater : 0 < k -> frame_time b <> T + k).
    { intros Hpos Hb.
      assert (Hdb : time_dist T b = k) by (unfold time_dist; lia).
      destruct Hmin as [pre [post [Heq [Hpre Hpost]]]]. subst timeline.
      apply in_app_or in Hin1. destruct Hin1 as [Hin1|[Hin1|Hin1]].
      - specialize (Hpre f1 Hin1). lia.
      - subst f1. lia.
      - pose proof (monotone_app_later _ _ _ Hmono f1 Hin1). lia. }
    split; [exact Hlater|].
    intros Hnone.
    pose proof (first_min_le _ _ _ Hmin f1 Hin1) as Hle1.
    pose proof (Hnone b (first_min_in _ _ _ Hmin)) as Hge.
    assert (Hdb : time_dist T b = k) by lia.
    destruct (Z.eq_dec k 0) as [->|Hnz].
    + unfold time_dist in Hdb. lia.
    + assert (Hpos : 0 < k) by lia. specialize (Hlater Hpos).
      unfold time_dist in Hdb. lia.
  - exfalso. destruct Hspec as [->|[f [Hmin Hfar]]]; [destruct Hin1|].
    pose proof (first_min_le _ _ _ Hmin f1 Hin1). lia.
Qed.

(** C4: for [max_delta >= 0] on a monotone timeline, [None] is returned
    exactly when the timeline is empty or every frame is farther than
    [max_delta] from the target.  A single frame at time [T] is matched by a
    target at [T + max_delta] and not by one at [T + max_delta + 1]; with
    [max_delta = 0] a frame is returned exactly when one has the target's
    time, and the returned frame has that time. *)
Theorem find_closest_frame_none_iff
    (timeline : list frame) (T max_delta : Z) :
  monotone timeline ->
  0 <= max_delta ->
  (find_closest_frame timeline T max_delta = None <->
   timeline = [] \/ forall g, In g timeline -> max_delta < time_dist T g) /\
  (forall x y,
     find_closest_frame [(T, x, y)] (T + max_delta) max_delta = Some (T, x, y)) /\
  (forall x y,
     find_closest_frame [(T, x, y)] (T + max_delta + 1) max_delta = None) /\
  (forall f, find_closest_frame timeline T 0 = Some f -> frame_time f = T) /\
  ((exists g, In g timeline /\ frame_time g = T) ->
   exists f, find_closest_frame timeline T 0 = Some f).
Proof.
  intros Hmono Hmd. repeat split.
  - intros Hnone.
    pose proof (find_closest_frame_spec T timeline max_delta Hmono) as Hspec.
    rewrite Hnone in Hspec. destruct Hspec as [->|[f [Hmin Hfar]]].
    + left. reflexivity.
    + right. intros g Hg. pose proof (first_min_le _ _ _ Hmin g Hg). lia.
  - intros Hfar.
    pose proof (find_closest_frame_spec T timeline max_delta Hmono) as Hspec.
    destruct (find_closest_frame timeline T max_delta) as [b|]; [|reflexivity].
    exfalso. destruct Hspec as [Hmin Hle].
    pose proof (first_min_in _ _ _ Hmin) as Hin.
    destruct Hfar as [->|Hfar]; [destruct Hin|].
    specialize (Hfar b Hin). lia.
  - intros x y.
    pose proof (find_closest_frame_spec (T + max_delta) [(T, x, y)] max_delta
                  (monotone_singleton _)) as Hspec.
    destruct (find_closest_frame [(T, x, y)] (T + max_delta) max_delta) as [b|].
    + destruct Hspec as [Hmin _]. apply first_min_in in Hmin.
      destruct Hmin as [<-|[]]. reflexivity.
    + exfalso. destruct Hspec as [Hnil|[f [Hmin Hfar]]]; [discriminate|].
      apply first_min_in in Hmin. destruct Hmin as [<-|[]].
      unfold time_dist, frame_time in Hfar; simpl in Hfar. lia.
  - intros x y.
    pose proof (find_closest_frame_spec (T + max_delta + 1) [(T, x, y)] max_delta
                  (monotone_singleton _)) as Hspec.
    destruct (find_closest_frame [(T, x, y)] (T + max_delta + 1) max_delta)
      as [b|]; [|reflexivity].
    exfalso. destruct Hspec as [Hmin Hle]. apply first_min_in in Hmin.
    destruct Hmin as [<-|[]].
    unfold time_dist, frame_time in Hle; simpl in Hle. lia.
  - intros f Hf.
    pose proof (find_closest_frame_spec T timeline 0 Hmono) as Hspec.
    rewrite Hf in Hspec. destruct Hspec as [_ Hle]. unfold time_dist in Hle. lia.
  - intros [g [Hg Htime]].
    pose proof (find_closest_frame_spec T timeline 0 Hmono) as Hspec.
    destruct (find_closest_frame timeline T 0) as [b|]; [exists b; reflexivity|].
    exfalso. destruct Hspec as [->|[f [Hmin Hfar]]]; [destruct Hg|].
    pose proof (first_min_le _ _ _ Hmin g Hg) as Hle.
    unfold time_dist in *. lia.
Qed.

(** ** Comparisons and arithmetic on the idealised floats *)

Lemma Qcltb_lt (x y : Qc) : Qcltb x y = true <-> (x < y)%Qc.
Proof.
  unfold Qcltb. rewrite Qclt_alt.
  destruct (x ?= y)%Qc; split; intros H; congruence.
Qed.

Lemma Qcleb_le (x y : Qc) : Qcleb x y = true <-> (x <= y)%Qc.
Proof.
  unfold Qcleb. rewrite Qcle_alt.
  destruct (x ?= y)%Qc; split; intros H; congruence.
Qed.

Lemma Qceqb_eq (x y : Qc) : Qceqb x y = true <-> x = y.
Proof.
  unfold Qceqb. rewrite Qceq_alt.
  destruct (x ?= y)%Qc; split; intros H; congruence.
Qed.

Lemma Qcltb_ge (x y : Qc) : Qcltb x y = false <-> (y <= x)%Qc.
Proof.
  split; intros H.
  - apply Qcnot_lt_le. intros Hlt. apply Qcltb_lt in Hlt. congruence.
  - destruct (Qcltb x y) eqn:E; [|reflexivity].
    apply Qcltb_lt in E. exfalso. exact (Qcle_not_lt _ _ H E).
Qed.

Lemma Q2R_Qcplus (x y : Qc) : Q2R (x + y)%Qc = (Q2R x + Q2R y)%R.
Proof.
  rewrite <- Q2R_plus. apply Qeq_eqR. unfold Qcplus, Q2Qc.
  exact (Qred_correct (x + y)).
Qed.

Lemma Q2R_Qcmult (x y : Qc) : Q2R (x * y)%Qc = (Q2R x * Q2R y)%R.
Proof.
  rewrite <- Q2R_mult. apply Qeq_eqR. unfold Qcmult, Q2Qc.
  exact (Qred_correct (x * y)).
Qed.

Lemma Q2R_Qc0 : Q2R 0%Qc = 0%R.
Proof. unfold Q2R; simpl. lra. Qed.

Lemma Qcle_Rle (x y : Qc) : (x <= y)%Qc <-> (Q2R x <= Q2R y)%R.
Proof. unfold Qcle. split; [apply Qle_Rle|apply Rle_Qle]. Qed.

(** The test of the filter is the comparison of the Euclidean distance with
    the radius. *)
Lemma within_radius_hypot (dx dy include_radius : Qc) :
  within_radius dx dy include_radius = true <->
  (hypot dx dy <= Q2R include_radius)%R.
Proof.
  unfold within_radius, hypot.
  rewrite andb_true_iff, !Qcleb_le, !Qcle_Rle.
  rewrite Q2R_Qcplus, !Q2R_Qcmult, Q2R_Qc0.
  set (a := Q2R dx). set (b := Q2R dy). set (r := Q2R include_radius).
  assert (Hsq : (0 <= a * a + b * b)%R) by nra.
  split.
  - intros [Hr Hle].
    rewrite <- (sqrt_square r Hr). apply sqrt_le_1_alt. exact Hle.
  - intros Hle.
    pose proof (sqrt_pos (a * a + b * b)) as Hpos.
    pose proof (sqrt_sqrt (a * a + b * b) Hsq) as Hss.
    split; [lra|]. rewrite <- Hss. nra.
Qed.

Lemma within_radius_negative (dx dy include_radius : Qc) :
  (include_radius < 0)%Qc -> within_radius dx dy include_radius = false.
Proof.
  intros Hneg. unfold within_radius.
  destruct (Qcleb 0 include_radius) eqn:E; [|reflexivity].
  apply Qcleb_le in E. exfalso. exact (Qcle_not_lt _ _ E Hneg).
Qed.

(** ** The report of [summarize_errors] *)

Lemma bind_returned {A B} (out : list line) (a : A) (k : A -> M B) :
  bind (out, inr a) k = (out ++ fst (k a), snd (k a)).
Proof. unfold bind. destruct (k a). reflexivity. Qed.

Lemma Qc_of_nat_nonzero (n : nat) :
  n <> 0%nat -> Qceqb (Qc_of_nat n) 0 = false.
Proof.
  intros Hn. destruct (Qceqb (Qc_of_nat n) 0) eqn:E; [|reflexivity].
  exfalso. apply Qceqb_eq in E. unfold Qc_of_nat, Qc_of_Z in E.
  apply Q2Qc_eq_iff in E. unfold Qeq in E; simpl in E. lia.
Qed.

Lemma truediv_nonzero (a b : Qc) :
  Qceqb b 0 = false -> truediv a b = ret (a / b)%Qc.
Proof. intros H. unfold truediv. rewrite H. reflexivity. Qed.

Lemma truediv_zero (a : Qc) : truediv a 0 = raise ZeroDivisionError.
Proof. reflexivity. Qed.

Lemma mean_nonempty (x : Qc) (data : list Qc) :
  mean (x :: data) = ret (mean_value (x :: data)).
Proof. reflexivity. Qed.

Lemma print_quadrants_lines (items : list (string * nat)) (total : nat) :
  total <> 0%nat ->
  print_quadrants items total = (map (quadrant_line total) items, inr tt).
Proof.
  intros Htot. induction items as [|[name count] rest IH]; simpl.
  - reflexivity.
  - rewrite (truediv_nonzero _ _ (Qc_of_nat_nonzero total Htot)).
    rewrite IH. reflexivity.
Qed.

(** The suggestion block never raises. *)
Lemma suggest_adjustment_returns (mean_dx mean_dy mx my th : Qc) :
  snd (suggest_adjustment mean_dx mean_dy mx my th) = inr tt.
Proof.
  unfold suggest_adjustment.
  destruct (Qcltb (Qcabs mx) th && Qcltb (Qcabs my) th); reflexivity.
Qed.

(** What a non-empty list of errors makes [summarize_errors] print, and that
    it returns. *)
Lemma summarize_errors_report (e : Qc * Qc) (es : list (Qc * Qc)) (w h th : Qc) :
  let errors := e :: es in
  let mean_dx := mean_value (map fst errors) in
  let mean_dy := mean_value (map snd errors) in
  summarize_errors errors w h th =
  ([LSummaryHeader; LTotalSamples (length errors); LMeanBiasPx mean_dx mean_dy;
    LOnTabletArea; LDxMm (mean_dx_mm_of errors w); LDyMm (mean_dy_mm_of errors h);
    LQuadrantHeader]
   ++ map (quadrant_line (length errors)) (count_quadrants errors)
   ++ LSuggestionHeader
      :: printed (suggest_adjustment mean_dx mean_dy
                    (mean_dx_mm_of errors w) (mean_dy_mm_of errors h) th),
   inr tt).
Proof.
  intros errors mean_dx mean_dy. subst errors mean_dx mean_dy.
  unfold summarize_errors, truediv, mean_dx_mm_of, mean_dy_mm_of, mean_value.
  change (Qceqb (Qc_of_Z 512) 0) with false.
  change (Qceqb (Qc_of_Z 384) 0) with false.
  rewrite (print_quadrants_lines _ (length (e :: es))) by discriminate.
  cbn [map mean bind ret print app].
  match goal with
  | |- context [suggest_adjustment ?a ?b ?c ?d ?t] =>
      pose proof (suggest_adjustment_returns a b c d t) as Hret;
      destruct (suggest_adjustment a b c d t) as [out r]
  end.
  cbn [snd] in Hret. subst r. reflexivity.
Qed.

Lemma suggest_adjustment_printed (mean_dx mean_dy mx my th : Qc) :
  printed (suggest_adjustment mean_dx mean_dy mx my th) =
  if Qcltb (Qcabs mx) th && Qcltb (Qcabs my) th
  then [LNoAdjustment th]
  else [LTendToAim;
        LTooFarX (Qcabs mx) (if Qcltb 0 mean_dx then "right" else "left");
        LTooFarY (Qcabs my) (if Qcltb 0 mean_dy then "down" else "up");
        LToCompensate;
        LShiftX (Qcabs (- mx)) (if Qcltb 0 (- mx)%Qc then "right" else "left");
        LShiftY (Qcabs (- my)) (if Qcltb 0 (- my)%Qc then "down" else "up");
        LAdjustNote]%string.
Proof.
  unfold suggest_adjustment.
  destruct (Qcltb (Qcabs mx) th && Qcltb (Qcabs my) th); reflexivity.
Qed.

Lemma below_threshold_test (errors : list (Qc * Qc)) (w h th : Qc) :
  Qcltb (Qcabs (mean_dx_mm_of errors w)) th
  && Qcltb (Qcabs (mean_dy_mm_of errors h)) th = true
  <-> below_threshold errors w h th.
Proof.
  unfold below_threshold. rewrite andb_true_iff, !Qcltb_lt. reflexivity.
Qed.

(** A line of the suggestion block is printed by [summarize_errors] exactly
    when the suggestion block prints it. *)
Lemma in_summary_suggestion (e : Qc * Qc) (es : list (Qc * Qc)) (w h th : Qc)
    (l : line) :
  is_suggestion_line l = true ->
  In l (printed (summarize_errors (e :: es) w h th)) <->
  In l (printed (suggest_adjustment
                   (mean_value (map fst (e :: es))) (mean_value (map snd (e :: es)))
                   (mean_dx_mm_of (e :: es) w) (mean_dy_mm_of (e :: es) h) th)).
Proof.
  intros Hl. rewrite summarize_errors_report. unfold printed at 1. cbn [fst].
  rewrite in_app_iff, in_app_iff. split.
  - intros [Hin|[Hin|Hin]].
    + cbn [In] in Hin.
      repeat (destruct Hin as [<-|Hin]; [exfalso; exact (Bool.diff_false_true Hl)|]). destruct Hin.
    + apply in_map_iff in Hin. destruct Hin as [item [<- _]]. exfalso.
      exact (Bool.diff_false_true Hl).
    + destruct Hin as [<-|Hin]; [exfalso; exact (Bool.diff_false_true Hl)|exact Hin].
  - intros Hin. right. right. right. exact Hin.
Qed.

(** ** Order of the errors *)

Lemma fold_left_permutation {A S : Type} (f : S -> A -> S) (l l' : list A) :
  (forall s a b, f (f s a) b = f (f s b) a) ->
  Permutation l l' ->
  forall s, fold_left f l s = fold_left f l' s.
Proof.
  intros Hcomm Hperm. induction Hperm; intros s; simpl.
  - reflexivity.
  - apply IHHperm.
  - rewrite Hcomm. reflexivity.
  - rewrite IHHperm1. apply IHHperm2.
Qed.

Lemma fsum_permutation (l l' : list Qc) :
  Permutation l l' -> fsum l = fsum l'.
Proof.
  intros Hperm. unfold fsum. apply fold_left_permutation; [|exact Hperm].
  intros s a b. ring.
Qed.

Lemma incr_comm (a b : string) (counts : list (string * nat)) :
  incr a (incr b counts) = incr b (incr a counts).
Proof.
  induction counts as [|[k c] rest IH]; simpl.
  - reflexivity.
  - destruct (String.eqb k a) eqn:Ea, (String.eqb k b) eqn:Eb; simpl;
      rewrite ?Ea, ?Eb; try reflexivity.
    rewrite IH. reflexivity.
Qed.

Lemma count_quadrants_permutation (l l' : list (Qc * Qc)) :
  Permutation l l' -> count_quadrants l = count_quadrants l'.
Proof.
  intros Hperm. unfold count_quadrants.
  apply fold_left_permutation; [|exact Hperm].
  intros s a b. apply incr_comm.
Qed.

Lemma mean_value_permutation (l l' : list Qc) :
  Permutation l l' -> mean_value l = mean_value l'.
Proof.
  intros Hperm. unfold mean_value.
  rewrite (fsum_permutation _ _ Hperm), (Permutation_length Hperm). reflexivity.
Qed.

(** C9: [summarize_errors] does not depend on the order of the errors: on a
    permutation of the list, with the same area and threshold, it prints the
    same lines and returns the same way. *)
Theorem summarize_errors_permutation
    (errors errors' : list (Qc * Qc)) (w h th : Qc) :
  Permutation errors errors' ->
  summarize_errors errors w h th = summarize_errors errors' w h th.
Proof.
  intros Hperm.
  destruct errors as [|e es].
  - apply Permutation_nil in Hperm. subst errors'. reflexivity.
  - destruct errors' as [|e' es'].
    + apply Permutation_sym, Permutation_nil in Hperm. discriminate.
    + rewrite !summarize_errors_report. unfold mean_dx_mm_of, mean_dy_mm_of.
      rewrite (mean_value_permutation _ _ (Permutation_map fst Hperm)).
      rewrite (mean_value_permutation _ _ (Permutation_map snd Hperm)).
      rewrite (count_quadrants_permutation _ _ Hperm).
      rewrite (Permutation_length Hperm). reflexivity.
Qed.

(** ** Exceptions *)

Lemma summarize_errors_returns (errors : list (Qc * Qc)) (w h th : Qc) :
  snd (summarize_errors errors w h th) = inr tt.
Proof.
  destruct errors as [|e es]; [reflexivity|].
  rewrite summarize_errors_report. reflexivity.
Qed.

(** C7: on an empty list [summarize_errors] prints the line saying no usable
    errors were collected and nothing else, and returns.  Whatever the list,
    the area and the threshold, it never raises, although the mean of no
    data and a division by a zero total do raise: the test on the empty
    list keeps both out of reach. *)
Theorem summarize_errors_empty (w h th : Qc) :
  summarize_errors [] w h th = ([LNoUsable], inr tt) /\
  (forall errors, ~ raises (summarize_errors errors w h th)) /\
  mean [] = raise StatisticsError /\
  (forall count, truediv (Qc_of_nat count) (Qc_of_nat 0) = raise ZeroDivisionError).
Proof.
  split; [reflexivity|]. split; [|split; [reflexivity|intros count; reflexivity]].
  intros errors [ex Hex]. rewrite summarize_errors_returns in Hex. discriminate.
Qed.

(** ** The deviation filter *)

Lemma collect_errors_negative_radius
    (hitobjects : list hitobject) (timeline : list frame) (r : Qc) :
  (r < 0)%Qc -> collect_errors hitobjects timeline r = [].
Proof.
  intros Hneg. induction hitobjects as [|[[t_obj x_obj] y_obj] rest IH]; simpl.
  - reflexivity.
  - destruct (find_closest_frame timeline t_obj 80) as [f|]; [|exact IH].
    rewrite (within_radius_negative _ _ _ Hneg). exact IH.
Qed.

Lemma analyze_replay_returns
    (hitobjects : list hitobject) (replay_data : list replay_event) (r : Qc) :
  snd (analyze_replay_with_md5 hitobjects replay_data r)
  = inr (collect_errors hitobjects (build_replay_timeline replay_data) r).
Proof. reflexivity. Qed.



(** ** The suggestion *)

Lemma Qcopp_pos_iff (x : Qc) : (0 < - x)%Qc <-> (x < 0)%Qc.
Proof.
  rewrite (Qclt_minus_iff x 0). rewrite Qcplus_0_l. reflexivity.
Qed.

Lemma zero_bias_mm (k area : Qc) : (0 / k * area)%Qc = 0%Qc.
Proof. unfold Qcdiv. ring. Qed.

Lemma Qcabs_zero : Qcabs 0 = 0%Qc.
Proof. qc_eq. Qed.

Lemma Qcopp_zero : (- 0)%Qc = 0%Qc.
Proof. qc_eq. Qed.



(** ** The symmetric example *)

Lemma four_vectors_counts :
  count_quadrants four_vectors
  = [("top-left", 0%nat); ("top-right", 1%nat);
     ("bottom-left", 1%nat); ("bottom-right", 2%nat)]%string.
Proof. vm_compute. reflexivity. Qed.

Lemma four_vectors_means :
  mean_value (map fst four_vectors) = 0%Qc /\
  mean_value (map snd four_vectors) = 0%Qc.
Proof. split; qc_eq. Qed.

(** C2, as the code has it: on the four vectors (10,0), (-10,0), (0,10),
    (0,-10) the means are zero on both axes and the buckets hold 0% (top
    left), 25% (top right), 25% (bottom left) and 50% (bottom right), a zero
    component counting with the non-negative side. *)
Theorem four_vectors_report (w h th : Qc) :
  printed (summarize_errors four_vectors w h th) =
  [LSummaryHeader; LTotalSamples 4; LMeanBiasPx 0%Qc 0%Qc; LOnTabletArea;
   LDxMm 0%Qc; LDyMm 0%Qc; LQuadrantHeader;
   LQuadrant "top-left" 0%Qc;
   LQuadrant "top-right" (Qc_of_Z 25);
   LQuadrant "bottom-left" (Qc_of_Z 25);
   LQuadrant "bottom-right" (Qc_of_Z 50);
   LSuggestionHeader]
  ++ printed (suggest_adjustment 0%Qc 0%Qc 0%Qc 0%Qc th).
Proof.
  destruct four_vectors_means as [Hx Hy].
  pose proof four_vectors_counts as Hq.
  unfold four_vectors in *. rewrite summarize_errors_report.
  unfold mean_dx_mm_of, mean_dy_mm_of.
  rewrite Hx, Hy, Hq, !zero_bias_mm.
  unfold printed at 1. cbn [fst map length app].
  unfold quadrant_line; cbn [fst snd].
  repeat (f_equal; try qc_eq).
Qed.

(** C2 as stated fails: the four buckets do not hold 25% each (the top-left
    bucket is empty). *)
Lemma four_vectors_not_quarters :
  ~ (In (LMeanBiasPx 0%Qc 0%Qc)
        (printed (summarize_errors four_vectors
                    (Qc_of_Z 100) (Qc_of_Z 50) (Q2Qc (1 # 4)))) /\
     forall name,
       In name ["top-left"; "top-right"; "bottom-left"; "bottom-right"]%string ->
       In (LQuadrant name (Qc_of_Z 25))
          (printed (summarize_errors four_vectors
                      (Qc_of_Z 100) (Qc_of_Z 50) (Q2Qc (1 # 4))))).
Proof.
  intros [_ Hall].
  specialize (Hall "top-left"%string (or_introl eq_refl)).
  unfold four_vectors in Hall. rewrite summarize_errors_report in Hall.
  fold four_vectors in Hall. rewrite four_vectors_counts in Hall.
  rewrite suggest_adjustment_printed in Hall.
  unfold printed in Hall. cbn [fst map app In quadrant_line snd] in Hall.
  repeat (destruct Hall as [Hall|Hall];
          [try discriminate; injection Hall as Hq; vm_compute in Hq; discriminate|]).
  exact Hall.
Qed.

(** ** Instances *)

Lemma sample_timeline_monotone : monotone sample_timeline.
Proof. solve_monotone. Qed.

(** The scan for a target at 18 ms stops at the frame at 100 ms and returns
    the frame at 20 ms. *)
Example find_closest_frame_sample :
  find_closest_frame sample_timeline 18 80 = Some (20, Qc_of_Z 1, Qc_of_Z 1) /\
  scan [(100, Qc_of_Z 2, Qc_of_Z 2); (200, Qc_of_Z 3, Qc_of_Z 3)] 18
       (Some (20, Qc_of_Z 1, Qc_of_Z 1), Some 2)
  = (Some (20, Qc_of_Z 1, Qc_of_Z 1), Some 2).
Proof. split; reflexivity. Qed.

(** A target at 15 ms is 5 ms from the frames at 10 and at 20 ms: the frame
    at 10 ms is returned. *)
Example find_closest_frame_tie_sample :
  find_closest_frame sample_timeline 15 80 = Some (10, Qc_of_Z 0, Qc_of_Z 0).
Proof. reflexivity. Qed.

(** On the boundary: a deviation of (3, 4) has length 5 and is kept with an
    inclusion radius of 5, and rejected with a radius of 49/10. *)
Example boundary_radius_sample :
  within_radius (Qc_of_Z 3) (Qc_of_Z 4) (Qc_of_Z 5) = true /\
  within_radius (Qc_of_Z 3) (Qc_of_Z 4) (Q2Qc (49 # 10)) = false /\
  length (collect_errors sample_hitobjects
            (build_replay_timeline sample_replay_3_4) (Qc_of_Z 5)) = 1%nat /\
  collect_errors sample_hitobjects
    (build_replay_timeline sample_replay_3_4) (Q2Qc (49 # 10)) = [].
Proof. repeat split; vm_compute; reflexivity. Qed.

Lemma find_closest_frame_nearest_witness :
  monotone sample_timeline /\
  (scan sample_timeline 18 (None, None) = scan_all sample_timeline 18 (None, None) /\
   (forall f, find_closest_frame sample_timeline 18 80 = Some f ->
      In f sample_timeline /\
      forall g, In g sample_timeline -> time_dist 18 f <= time_dist 18 g) /\
   ((exists g, In g sample_timeline /\ time_dist 18 g <= 80) ->
    exists f, find_closest_frame sample_timeline 18 80 = Some f)).
Proof.
  assert (Hmono : monotone sample_timeline) by solve_monotone.
  split; [exact Hmono|].
  exact (find_closest_frame_nearest sample_timeline 18 80 Hmono).
Defined.

Lemma find_closest_frame_tie_earlier_witness :
  monotone sample_timeline /\ 0 <= 5 <= 80 /\
  exists f,
    find_closest_frame sample_timeline 15 80 = Some f /\
    is_first_min 15 sample_timeline f /\
    (0 < 5 -> frame_time f <> 15 + 5) /\
    ((forall g, In g sample_timeline -> 5 <= time_dist 15 g) ->
     frame_time f = 15 - 5).
Proof.
  assert (Hmono : monotone sample_timeline) by solve_monotone.
  assert (Hk : 0 <= 5 <= 80) by lia.
  split; [exact Hmono|]. split; [exact Hk|].
  apply (find_closest_frame_tie_earlier sample_timeline 15 5 80
           (10, Qc_of_Z 0, Qc_of_Z 0) (20, Qc_of_Z 1, Qc_of_Z 1) Hmono Hk).
  - simpl. left. reflexivity.
  - reflexivity.
  - simpl. right. left. reflexivity.
  - reflexivity.
Defined.

Lemma find_closest_frame_none_iff_witness :
  monotone sample_timeline /\ 0 <= 80 /\
  (find_closest_frame sample_timeline 400 80 = None <->
   sample_timeline = [] \/
   forall g, In g sample_timeline -> 80 < time_dist 400 g).
Proof.
  assert (Hmono : monotone sample_timeline) by solve_monotone.
  assert (Hmd : 0 <= 80) by lia.
  split; [exact Hmono|]. split; [exact Hmd|].
  exact (proj1 (find_closest_frame_none_iff sample_timeline 400 80 Hmono Hmd)).
Defined.



Lemma summarize_errors_permutation_witness :
  Permutation [vec 1 2; vec 3 (-4)] [vec 3 (-4); vec 1 2] /\
  summarize_errors [vec 1 2; vec 3 (-4)] (Qc_of_Z 100) (Qc_of_Z 50) (Q2Qc (1 # 4))
  = summarize_errors [vec 3 (-4); vec 1 2] (Qc_of_Z 100) (Qc_of_Z 50) (Q2Qc (1 # 4)).
Proof.
  assert (Hperm : Permutation [vec 1 2; vec 3 (-4)] [vec 3 (-4); vec 1 2])
    by apply perm_swap.
  split; [exact Hperm|].
  exact (summarize_errors_permutation _ _ (Qc_of_Z 100) (Qc_of_Z 50)
           (Q2Qc (1 # 4)) Hperm).
Defined.

Lemma sample_not_below_threshold :
  ~ below_threshold [vec 0 10] (Qc_of_Z 100) (Qc_of_Z 100) (Q2Qc (1 # 4)).
Proof. intros [_ Hy]. vm_compute in Hy. discriminate. Qed.



(** * Further properties of the code *)

(** ** The scan on any timeline, monotone or not *)

(** The states the scan goes through: nothing seen, or a frame with its own
    distance. *)
Lemma update_best_shape (T : Z) (f : frame) (st : scan_state) :
  (st = (None, None) \/ exists b, st = (Some b, Some (time_dist T b))) ->
  exists b, update_best T f st = (Some b, Some (time_dist T b)) /\
            (b = f \/ fst st = Some b) /\
            time_dist T b <= time_dist T f.
Proof.
  intros [->|[b ->]]; unfold update_best; simpl.
  - exists f. split; [reflexivity|]. split; [left; reflexivity|lia].
  - destruct (Z.ltb_spec (time_dist T f) (time_dist T b)).
    + exists f. split; [reflexivity|]. split; [left; reflexivity|lia].
    + exists b. split; [reflexivity|]. split; [right; reflexivity|lia].
Qed.

Lemma scan_result_shape (T : Z) (timeline : list frame) (st : scan_state) :
  (st = (None, None) \/ exists b, st = (Some b, Some (time_dist T b))) ->
  (timeline = [] /\ scan timeline T st = st) \/
  exists b, scan timeline T st = (Some b, Some (time_dist T b)) /\
            (In b timeline \/ fst st = Some b).
Proof.
  revert st. induction timeline as [|f rest IH]; intros st Hst.
  - left. split; reflexivity.
  - right. rewrite scan_cons.
    destruct (update_best_shape T f st Hst) as [b [Hup [Hfrom Hle]]].
    rewrite Hup. cbn [snd].
    assert (Hb : In b (f :: rest) \/ fst st = Some b).
    { destruct Hfrom as [->|Hfrom]; [left; left; reflexivity|right; exact Hfrom]. }
    destruct (should_break (frame_time f) T (Some (time_dist T b))).
    + exists b. split; [reflexivity|exact Hb].
    + destruct (IH (Some b, Some (time_dist T b))) as [[-> Heq]|[b' [Heq Hin]]].
      * right. exists b. reflexivity.
      * exists b. split; [exact Heq|exact Hb].
      * exists b'. split; [exact Heq|].
        destruct Hin as [Hin|Hin]; [left; right; exact Hin|].
        simpl in Hin. injection Hin as <-. exact Hb.
Qed.

(** X1: whatever the order of the timeline, a frame returned by
    [find_closest_frame] is one of its frames and lies within [max_delta] of
    the target; and when nothing is returned from a non-empty timeline, some
    frame of it is farther than [max_delta]. *)
Theorem find_closest_frame_sound
    (timeline : list frame) (T max_delta : Z) :
  (forall f, find_closest_frame timeline T max_delta = Some f ->
     In f timeline /\ time_dist T f <= max_delta) /\
  (find_closest_frame timeline T max_delta = None ->
   timeline = [] \/
   exists f, In f timeline /\ max_delta < time_dist T f).
Proof.
  unfold find_closest_frame.
  destruct (scan_result_shape T timeline (None, None) (or_introl eq_refl))
    as [[-> Heq]|[b [Heq [Hin|Hin]]]]; try discriminate.
  - simpl. split; [intros f Hf; discriminate|]. intros _. left. reflexivity.
  - rewrite Heq.
    destruct (Z.gtb_spec (time_dist T b) max_delta) as [Hgt|Hle].
    + split; [intros f Hf; discriminate|].
      intros _. right. exists b. split; [exact Hin|lia].
    + split; [|intros Hf; discriminate].
      intros f Hf. injection Hf as <-. split; [exact Hin|lia].
Qed.

(** Once a frame later than the target is farther from it than a frame seen
    before, the scan stops there and the frames behind it are not read. *)
Lemma scan_stops_at (T : Z) (pre rest : list frame) (far : frame)
    (st : scan_state) :
  T < frame_time far ->
  ((exists b, In b pre /\ time_dist T b < frame_time far - T) \/
   (exists d, snd st = Some d /\ d < frame_time far - T)) ->
  scan (pre ++ far :: rest) T st = scan pre T st.
Proof.
  intros Hlate. revert st. induction pre as [|p pre IH]; intros st Hclose.
  - destruct Hclose as [[b [[] _]]|[d [Hd Hlt]]].
    cbn [app]. rewrite scan_cons. unfold update_best.
    destruct st as [best bd]. simpl in Hd. subst bd. cbn [snd improves].
    assert (Hdist : time_dist T far = frame_time far - T)
      by (unfold time_dist; lia).
    destruct (Z.ltb_spec (time_dist T far) d); [lia|].
    unfold should_break. cbn [snd].
    destruct (Z.gtb_spec (frame_time far) T); [|lia].
    destruct (Z.gtb_spec (frame_time far - T) d); [|lia].
    reflexivity.
  - cbn [app]. rewrite !scan_cons.
    destruct (should_break (frame_time p) T (snd (update_best T p st)));
      [reflexivity|].
    apply IH.
    assert (Hup : forall d, snd st = Some d ->
              exists d', snd (update_best T p st) = Some d' /\ d' <= d).
    { intros d Hd. unfold update_best. rewrite Hd. cbn [improves].
      destruct (Z.ltb_spec (time_dist T p) d).
      - exists (time_dist T p). split; [reflexivity|lia].
      - exists d. split; [exact Hd|lia]. }
    assert (Hp : exists d', snd (update_best T p st) = Some d' /\
                            d' <= time_dist T p).
    { unfold update_best. destruct (snd st) as [d|] eqn:Hd; cbn [improves].
      - destruct (Z.ltb_spec (time_dist T p) d).
        + exists (time_dist T p). split; [reflexivity|lia].
        + exists d. split; [exact Hd|lia].
      - exists (time_dist T p). split; [reflexivity|lia]. }
    destruct Hclose as [[b [[<-|Hin] Hlt]]|[d [Hd Hlt]]].
    + right. destruct Hp as [d' [Hd' Hle]]. exists d'. split; [exact Hd'|lia].
    + left. exists b. split; assumption.
    + right. destruct (Hup d Hd) as [d' [Hd' Hle]].
      exists d'. split; [exact Hd'|lia].
Qed.

(** X2: the early exit does not depend on the timeline being monotone.  If
    a frame later than the target is farther from it than some frame before
    it, every frame behind it is ignored, closer or not: the result is that
    of the timeline cut before that frame. *)
Theorem find_closest_frame_ignores_after_break
    (pre rest : list frame) (far b : frame) (T max_delta : Z) :
  In b pre ->
  T < frame_time far ->
  time_dist T b < frame_time far - T ->
  find_closest_frame (pre ++ far :: rest) T max_delta
  = find_closest_frame pre T max_delta.
Proof.
  intros Hin Hlate Hfar. unfold find_closest_frame.
  rewrite (scan_stops_at T pre rest far (None, None) Hlate); [reflexivity|].
  left. exists b. split; assumption.
Qed.

(** X3: the tolerance only gates the result.  With a negative [max_delta]
    nothing is ever returned; and a frame returned for some [max_delta] is
    returned for every larger one. *)
Theorem find_closest_frame_tolerance
    (timeline : list frame) (T max_delta : Z) :
  (max_delta < 0 -> find_closest_frame timeline T max_delta = None) /\
  (forall f max_delta',
     find_closest_frame timeline T max_delta = Some f ->
     max_delta <= max_delta' ->
     find_closest_frame timeline T max_delta' = Some f).
Proof.
  unfold find_closest_frame.
  destruct (scan_result_shape T timeline (None, None) (or_introl eq_refl))
    as [[-> Heq]|[b [Heq _]]].
  - simpl. split; [reflexivity|]. intros f md' Hf. discriminate.
  - rewrite Heq. split.
    + intros Hneg. destruct (Z.gtb_spec (time_dist T b) max_delta); [reflexivity|].
      unfold time_dist in *. lia.
    + intros f md' Hf Hle.
      destruct (Z.gtb_spec (time_dist T b) max_delta); [discriminate|].
      destruct (Z.gtb_spec (time_dist T b) md'); [lia|exact Hf].
Qed.

(** ** The timeline built from a replay *)

Lemma monotone_cons_iff (f g : frame) (rest : list frame) :
  monotone (f :: g :: rest) <->
  frame_time f <= frame_time g /\ monotone (g :: rest).
Proof.
  unfold monotone. simpl. split.
  - intros H. inversion H as [|? ? Hs Hh]; subst.
    inversion Hh; subst. split; assumption.
  - intros [Hle Hs]. constructor; [exact Hs|]. constructor. exact Hle.
Qed.

Lemma build_from_monotone_iff (t : Z) (evt : replay_event)
    (rest : list replay_event) :
  monotone (build_from t (evt :: rest)) <->
  Forall (fun e => 0 <= time_delta e) rest.
Proof.
  revert t evt. induction rest as [|e2 rest IH]; intros t evt.
  - simpl. split; intros _; [constructor|apply monotone_singleton].
  - change (build_from t (evt :: e2 :: rest))
      with ((t + time_delta evt, evt_x evt, evt_y evt)
            :: build_from (t + time_delta evt) (e2 :: rest)).
    change (build_from (t + time_delta evt) (e2 :: rest))
      with ((t + time_delta evt + time_delta e2, evt_x e2, evt_y e2)
            :: build_from (t + time_delta evt + time_delta e2) rest).
    rewrite monotone_cons_iff.
    change ((t + time_delta evt + time_delta e2, evt_x e2, evt_y e2)
            :: build_from (t + time_delta evt + time_delta e2) rest)
      with (build_from (t + time_delta evt) (e2 :: rest)).
    rewrite IH. unfold frame_time; cbn [fst].
    split.
    + intros [Hle Hall]. constructor; [lia|exact Hall].
    + intros Hall. inversion Hall; subst. split; [lia|assumption].
Qed.

(** X4: the timeline of a replay is monotone exactly when every time delta
    after the first is non-negative (the first only sets the starting time). *)
Theorem build_replay_timeline_monotone_iff
    (evt : replay_event) (rest : list replay_event) :
  monotone (build_replay_timeline (evt :: rest)) <->
  Forall (fun e => 0 <= time_delta e) rest.
Proof. apply build_from_monotone_iff. Qed.

Lemma build_from_times (t : Z) (replay_data : list replay_event) :
  map frame_time (build_from t replay_data) =
  map (fun n => t + fold_right Z.add 0
                      (map time_delta (firstn (S n) replay_data)))
      (seq 0 (length replay_data)).
Proof.
  revert t. induction replay_data as [|evt rest IH]; intros t.
  - reflexivity.
  - cbn [build_from map length seq]. rewrite IH.
    rewrite <- seq_shift, map_map. f_equal.
    + unfold frame_time. simpl. lia.
    + apply map_ext. intros n. cbn [firstn map fold_right]. lia.
Qed.

Lemma build_from_positions (t : Z) (replay_data : list replay_event) :
  map frame_x (build_from t replay_data) = map evt_x replay_data /\
  map frame_y (build_from t replay_data) = map evt_y replay_data.
Proof.
  revert t. induction replay_data as [|evt rest IH]; intros t.
  - split; reflexivity.
  - destruct (IH (t + time_delta evt)) as [Hx Hy].
    cbn [build_from map]. rewrite Hx, Hy. split; reflexivity.
Qed.

(** X5: the timeline has one frame per replay event, in order, with the
    event's cursor position, and the time of the n-th frame is the sum of the
    first n+1 time deltas. *)
Theorem build_replay_timeline_frames (replay_data : list replay_event) :
  length (build_replay_timeline replay_data) = length replay_data /\
  map frame_x (build_replay_timeline replay_data) = map evt_x replay_data /\
  map frame_y (build_replay_timeline replay_data) = map evt_y replay_data /\
  map frame_time (build_replay_timeline replay_data) =
  map (fun n => fold_right Z.add 0
                  (map time_delta (firstn (S n) replay_data)))
      (seq 0 (length replay_data)).
Proof.
  unfold build_replay_timeline.
  destruct (build_from_positions 0 replay_data) as [Hx Hy].
  split; [|split; [exact Hx|split; [exact Hy|]]].
  - rewrite <- (length_map frame_x), Hx. apply length_map.
  - rewrite build_from_times. apply map_ext. intros n. lia.
Qed.

(** ** The errors kept for one replay *)

(** Where a kept error comes from. *)
Lemma collect_errors_in (hitobjects : list hitobject) (timeline : list frame)
    (r : Qc) (v : Qc * Qc) :
  In v (collect_errors hitobjects timeline r) ->
  exists t_obj x_obj y_obj f,
    In (t_obj, x_obj, y_obj) hitobjects /\
    find_closest_frame timeline t_obj 80 = Some f /\
    v = deviation f x_obj y_obj /\
    within_radius (fst v) (snd v) r = true.
Proof.
  induction hitobjects as [|[[t_obj x_obj] y_obj] rest IH]; simpl; [intros []|].
  assert (Hrest : In v (collect_errors rest timeline r) ->
            exists t x y f, ((t_obj, x_obj, y_obj) = (t, x, y) \/ In (t, x, y) rest) /\
              find_closest_frame timeline t 80 = Some f /\
              v = deviation f x y /\ within_radius (fst v) (snd v) r = true).
  { intros Hin. destruct (IH Hin) as [t [x [y [f [Hh Hf]]]]].
    exists t, x, y, f. split; [right; exact Hh|exact Hf]. }
  destruct (find_closest_frame timeline t_obj 80) as [f|] eqn:Hfind; [|exact Hrest].
  destruct (within_radius (frame_x f - Qc_of_Z x_obj) (frame_y f - Qc_of_Z y_obj) r)
    eqn:Hw; [|exact Hrest].
  intros [<-|Hin]; [|exact (Hrest Hin)].
  exists t_obj, x_obj, y_obj, f.
  split; [left; reflexivity|]. split; [exact Hfind|].
  split; [reflexivity|exact Hw].
Qed.


Lemma within_radius_larger (dx dy r r' : Qc) :
  (r <= r')%Qc -> within_radius dx dy r = true -> within_radius dx dy r' = true.
Proof.
  intros Hle Hw. apply within_radius_hypot. apply within_radius_hypot in Hw.
  apply Qcle_Rle in Hle. lra.
Qed.

(** X7: a smaller inclusion radius keeps exactly those errors of a larger
    one that lie within the smaller radius, in the same order. *)
Theorem collect_errors_smaller_radius
    (hitobjects : list hitobject) (timeline : list frame) (r r' : Qc) :
  (r <= r')%Qc ->
  collect_errors hitobjects timeline r
  = filter (fun v => within_radius (fst v) (snd v) r)
           (collect_errors hitobjects timeline r').
Proof.
  intros Hle.
  induction hitobjects as [|[[t_obj x_obj] y_obj] rest IH]; simpl; [reflexivity|].
  destruct (find_closest_frame timeline t_obj 80) as [f|]; [|exact IH].
  destruct (within_radius (frame_x f - Qc_of_Z x_obj) (frame_y f - Qc_of_Z y_obj) r)
    eqn:Hw.
  - rewrite (within_radius_larger _ _ _ _ Hle Hw). simpl. rewrite Hw, IH. reflexivity.
  - destruct (within_radius (frame_x f - Qc_of_Z x_obj)
                (frame_y f - Qc_of_Z y_obj) r'); [|exact IH].
    simpl. rewrite Hw. exact IH.
Qed.

(** X8: the hit objects are judged one by one: the errors of two lists of
    hit objects put end to end are the errors of the first followed by the
    errors of the second; a hit object gives at most one error, and an empty
    timeline gives none. *)
Theorem collect_errors_per_hitobject
    (hs1 hs2 : list hitobject) (timeline : list frame) (r : Qc) :
  collect_errors (hs1 ++ hs2) timeline r
  = collect_errors hs1 timeline r ++ collect_errors hs2 timeline r /\
  (length (collect_errors hs1 timeline r) <= length hs1)%nat /\
  collect_errors hs1 [] r = [].
Proof.
  split; [|split].
  - induction hs1 as [|[[t_obj x_obj] y_obj] rest IH]; simpl; [reflexivity|].
    destruct (find_closest_frame timeline t_obj 80) as [f|]; [|exact IH].
    destruct (within_radius _ _ r); [|exact IH].
    simpl. rewrite IH. reflexivity.
  - induction hs1 as [|[[t_obj x_obj] y_obj] rest IH]; simpl; [lia|].
    destruct (find_closest_frame timeline t_obj 80) as [f|]; [|lia].
    destruct (within_radius _ _ r); simpl; lia.
  - induction hs1 as [|[[t_obj x_obj] y_obj] rest IH]; simpl; [reflexivity|].
    exact IH.
Qed.


(** ** The buckets *)

Lemma incr_keys (name : string) (counts : list (string * nat)) :
  map fst (incr name counts) = map fst counts.
Proof.
  induction counts as [|[k c] rest IH]; simpl; [reflexivity|].
  destruct (String.eqb k name); simpl; [reflexivity|].
  rewrite IH. reflexivity.
Qed.

Lemma incr_sum (name : string) (counts : list (string * nat)) :
  In name (map fst counts) ->
  list_sum (map snd (incr name counts)) = S (list_sum (map snd counts)).
Proof.
  induction counts as [|[k c] rest IH]; simpl; [intros []|].
  intros Hin. destruct (String.eqb_spec k name) as [->|Hne]; simpl.
  - reflexivity.
  - destruct Hin as [Heq|Hin]; [contradiction|].
    rewrite (IH Hin). lia.
Qed.

Lemma quadrant_of_key (e : Qc * Qc) :
  In (quadrant_of e) (map fst quad_counts_init).
Proof.
  destruct e as [dx dy]. unfold quadrant_of. simpl.
  destruct (Qcltb dx 0 && Qcltb dy 0); [tauto|].
  destruct (Qcleb 0 dx && Qcltb dy 0); [tauto|].
  destruct (Qcltb dx 0 && Qcleb 0 dy); tauto.
Qed.

Lemma count_from_keys_sum (errors : list (Qc * Qc)) (init : list (string * nat)) :
  map fst init = map fst quad_counts_init ->
  let counts := fold_left (fun counts e => incr (quadrant_of e) counts) errors init in
  map fst counts = map fst quad_counts_init /\
  list_sum (map snd counts) = (list_sum (map snd init) + length errors)%nat.
Proof.
  revert init. induction errors as [|e es IH]; intros init Hkeys; cbn [fold_left].
  - split; [exact Hkeys|simpl; lia].
  - assert (Hkeys' : map fst (incr (quadrant_of e) init) = map fst quad_counts_init)
      by (rewrite incr_keys; exact Hkeys).
    destruct (IH _ Hkeys') as [Hk Hs]. split; [exact Hk|].
    cbv zeta in Hs. rewrite Hs, incr_sum.
    + simpl. lia.
    + rewrite Hkeys. apply quadrant_of_key.
Qed.

(** X10: the dict of buckets keeps its four keys in their order, and since
    every error is counted in exactly one bucket, the four counts add up to
    the number of errors. *)
Theorem count_quadrants_partition (errors : list (Qc * Qc)) :
  map fst (count_quadrants errors)
  = ["top-left"; "top-right"; "bottom-left"; "bottom-right"]%string /\
  list_sum (map snd (count_quadrants errors)) = length errors.
Proof.
  destruct (count_from_keys_sum errors quad_counts_init eq_refl) as [Hk Hs].
  split; [exact Hk|]. exact Hs.
Qed.

Lemma Qc_of_nat_add (a b : nat) :
  Qc_of_nat (a + b) = (Qc_of_nat a + Qc_of_nat b)%Qc.
Proof.
  apply Qc_is_canon. unfold Qc_of_nat, Qc_of_Z, Qcplus, Q2Qc. cbn [this].
  rewrite !Qred_correct, Nat2Z.inj_add, inject_Z_plus. reflexivity.
Qed.

Lemma fold_left_Qcplus_acc (data : list Qc) (acc : Qc) :
  fold_left Qcplus data acc = (acc + fsum data)%Qc.
Proof.
  unfold fsum. revert acc. induction data as [|x rest IH]; intros acc; simpl.
  - ring.
  - rewrite (IH (acc + x)%Qc), (IH (0 + x)%Qc). ring.
Qed.

Lemma fsum_app (a b : list Qc) : fsum (a ++ b) = (fsum a + fsum b)%Qc.
Proof.
  unfold fsum at 1. rewrite fold_left_app. fold (fsum a).
  apply fold_left_Qcplus_acc.
Qed.

Lemma fsum_cons (x : Qc) (l : list Qc) : fsum (x :: l) = (x + fsum l)%Qc.
Proof. change (x :: l) with ([x] ++ l). rewrite fsum_app. unfold fsum at 1. simpl. ring. Qed.

Lemma suggestion_no_pct (mean_dx mean_dy mx my th : Qc) :
  fsum (map line_pct (printed (suggest_adjustment mean_dx mean_dy mx my th)))
  = 0%Qc.
Proof.
  rewrite suggest_adjustment_printed.
  destruct (Qcltb (Qcabs mx) th && Qcltb (Qcabs my) th); cbn [map line_pct]; qc_eq.
Qed.

(** X11: for a non-empty list of errors the four percentages printed add up
    to 100. *)
Theorem quadrant_percentages_total
    (e : Qc * Qc) (es : list (Qc * Qc)) (w h th : Qc) :
  fsum (map line_pct (printed (summarize_errors (e :: es) w h th)))
  = Qc_of_Z 100.
Proof.
  rewrite summarize_errors_report. unfold printed at 1. cbn [fst].
  destruct (count_from_keys_sum (e :: es) quad_counts_init eq_refl) as [Hk Hs].
  fold (count_quadrants (e :: es)) in Hk, Hs. cbv zeta in Hk, Hs.
  destruct (count_quadrants (e :: es)) as [|[k1 c1] [|[k2 c2] [|[k3 c3] [|[k4 c4] [|]]]]];
    try discriminate.
  simpl in Hs.
  rewrite !map_app, !fsum_app. cbn [map line_pct quadrant_line fst snd].
  rewrite !fsum_cons, suggestion_no_pct. change (fsum []) with 0%Qc.
  assert (Hn : Qc_of_nat (length (e :: es))
               = (Qc_of_nat c1 + Qc_of_nat c2 + Qc_of_nat c3 + Qc_of_nat c4)%Qc).
  { change (length (e :: es)) with (S (length es)).
    rewrite <- Hs, !Qc_of_nat_add.
    change (Qc_of_nat 0) with 0%Qc. ring. }
  assert (Hnz : Qc_of_nat (length (e :: es)) <> 0%Qc).
  { intros Hz. apply Qceqb_eq in Hz.
    rewrite Qc_of_nat_nonzero in Hz by discriminate. discriminate. }
  set (n := Qc_of_nat (length (e :: es))) in *.
  transitivity ((Qc_of_nat c1 + Qc_of_nat c2 + Qc_of_nat c3 + Qc_of_nat c4) / n
                * Qc_of_Z 100)%Qc.
  - unfold Qcdiv. ring.
  - rewrite <- Hn. unfold Qcdiv. rewrite Qcmult_inv_r by exact Hnz. ring.
Qed.

(** ** Signs, labels and the threshold *)

Lemma Qcmult_pos_pos (a b : Qc) : (0 < a)%Qc -> (0 < b)%Qc -> (0 < a * b)%Qc.
Proof.
  intros Ha Hb. rewrite <- (Qcmult_0_l b). apply Qcmult_lt_compat_r; assumption.
Qed.

Lemma Qcmult_neg_pos (a b : Qc) : (a < 0)%Qc -> (0 < b)%Qc -> (a * b < 0)%Qc.
Proof.
  intros Ha Hb. rewrite <- (Qcmult_0_l b). apply Qcmult_lt_compat_r; assumption.
Qed.

Lemma Qcmult_pos_neg (a b : Qc) : (0 < a)%Qc -> (b < 0)%Qc -> (a * b < 0)%Qc.
Proof.
  intros Ha Hb. apply Qcopp_pos_iff.
  replace (- (a * b))%Qc with (a * - b)%Qc by ring.
  apply Qcmult_pos_pos; [exact Ha|apply Qcopp_pos_iff; exact Hb].
Qed.

Lemma Qcmult_neg_neg (a b : Qc) : (a < 0)%Qc -> (b < 0)%Qc -> (0 < a * b)%Qc.
Proof.
  intros Ha Hb. replace (a * b)%Qc with (- a * - b)%Qc by ring.
  apply Qcmult_pos_pos; apply Qcopp_pos_iff; assumption.
Qed.

Lemma Qcinv_pos (a : Qc) : (0 < a)%Qc -> (0 < / a)%Qc.
Proof.
  unfold Qclt, Qcinv, Q2Qc. cbn [this]. intros Ha.
  rewrite !Qred_correct. apply Qinv_lt_0_compat. exact Ha.
Qed.

Lemma Qc_of_nat_pos (n : nat) : n <> 0%nat -> (0 < Qc_of_nat n)%Qc.
Proof.
  intros Hn. unfold Qclt, Qc_of_nat, Qc_of_Z, Q2Qc. cbn [this].
  rewrite !Qred_correct. unfold Qlt. simpl. lia.
Qed.

Lemma Qclt_irrefl (a : Qc) : ~ (a < a)%Qc.
Proof. intros H. exact (Qclt_not_eq _ _ H eq_refl). Qed.

(** The bias in millimetres has the sign of the mean in pixels when the area
    is positive, the opposite sign when it is negative. *)
Lemma scaled_sign (m k area : Qc) :
  (0 < k)%Qc ->
  ((0 < area)%Qc -> ((0 < m)%Qc -> (0 < m / k * area)%Qc) /\
                    ((m < 0)%Qc -> (m / k * area < 0)%Qc)) /\
  ((area < 0)%Qc -> ((0 < m)%Qc -> (m / k * area < 0)%Qc) /\
                    ((m < 0)%Qc -> (0 < m / k * area)%Qc)).
Proof.
  intros Hk. pose proof (Qcinv_pos k Hk) as Hinv. unfold Qcdiv.
  split; intros Harea; split; intros Hm.
  - apply Qcmult_pos_pos; [apply Qcmult_pos_pos|]; assumption.
  - apply Qcmult_neg_pos; [apply Qcmult_neg_pos|]; assumption.
  - apply Qcmult_pos_neg; [apply Qcmult_pos_pos|]; assumption.
  - apply Qcmult_neg_neg; [apply Qcmult_neg_pos|]; assumption.
Qed.

Lemma Qcltb_pos_opp (a : Qc) :
  ((0 < a)%Qc -> Qcltb 0 (- a)%Qc = false) /\
  ((a < 0)%Qc -> Qcltb 0 (- a)%Qc = true).
Proof.
  split; intros Ha.
  - destruct (Qcltb 0 (- a)%Qc) eqn:E; [|reflexivity].
    apply Qcltb_lt, Qcopp_pos_iff in E. exfalso.
    exact (Qclt_irrefl _ (Qclt_trans _ _ _ E Ha)).
  - apply Qcltb_lt, Qcopp_pos_iff. exact Ha.
Qed.

Lemma Qcltb_neg (a : Qc) : (a < 0)%Qc -> Qcltb 0 a = false.
Proof.
  intros Ha. destruct (Qcltb 0 a) eqn:E; [|reflexivity].
  apply Qcltb_lt in E. exfalso. exact (Qclt_irrefl _ (Qclt_trans _ _ _ E Ha)).
Qed.

(** The four lines of a printed suggestion, with their labels as the code
    computes them. *)
Lemma suggestion_lines (e : Qc * Qc) (es : list (Qc * Qc)) (w h th : Qc) :
  let errors := e :: es in
  let out := printed (summarize_errors errors w h th) in
  let bx := mean_dx_mm_of errors w in
  let by_ := mean_dy_mm_of errors h in
  ~ below_threshold errors w h th ->
  In (LTooFarX (Qcabs bx)
        (if Qcltb 0 (mean_value (map fst errors)) then "right" else "left")) out /\
  In (LShiftX (Qcabs bx) (if Qcltb 0 (- bx)%Qc then "right" else "left")) out /\
  In (LTooFarY (Qcabs by_)
        (if Qcltb 0 (mean_value (map snd errors)) then "down" else "up")) out /\
  In (LShiftY (Qcabs by_) (if Qcltb 0 (- by_)%Qc then "down" else "up")) out.
Proof.
  cbv zeta. intros Hnb.
  pose proof (below_threshold_test (e :: es) w h th) as Htest.
  rewrite !in_summary_suggestion by reflexivity.
  rewrite suggest_adjustment_printed.
  destruct (Qcltb (Qcabs (mean_dx_mm_of (e :: es) w)) th
            && Qcltb (Qcabs (mean_dy_mm_of (e :: es) h)) th).
  - exfalso. apply Hnb, Htest. reflexivity.
  - rewrite !Qcabs_opp. cbn [In]. tauto.
Qed.

(** X12: with a threshold that is zero or negative, a non-empty list of
    errors always gets a suggestion: the line saying no adjustment is needed
    is never printed, and a shift is printed for both axes. *)
Theorem nonpositive_threshold_always_suggests
    (e : Qc * Qc) (es : list (Qc * Qc)) (w h th : Qc) :
  (th <= 0)%Qc ->
  ~ In (LNoAdjustment th) (printed (summarize_errors (e :: es) w h th)) /\
  (exists m d, In (LShiftX m d) (printed (summarize_errors (e :: es) w h th))) /\
  (exists m d, In (LShiftY m d) (printed (summarize_errors (e :: es) w h th))).
Proof.
  intros Hth.
  assert (Hnb : ~ below_threshold (e :: es) w h th).
  { intros [Hx _].
    pose proof (Qcabs_nonneg (mean_dx_mm_of (e :: es) w)) as Hpos.
    exact (Qclt_irrefl _ (Qcle_lt_trans _ _ _ Hpos (Qclt_le_trans _ _ _ Hx Hth))). }
  destruct (suggestion_lines e es w h th Hnb) as [_ [Hsx [_ Hsy]]].
  split; [|split; eexists; eexists; eassumption].
  rewrite in_summary_suggestion by reflexivity.
  rewrite suggest_adjustment_printed.
  pose proof (below_threshold_test (e :: es) w h th) as Htest.
  destruct (Qcltb (Qcabs (mean_dx_mm_of (e :: es) w)) th
            && Qcltb (Qcabs (mean_dy_mm_of (e :: es) h)) th).
  - exfalso. apply Hnb, Htest. reflexivity.
  - cbn [In]. intros Hin.
    repeat (destruct Hin as [Hin|Hin]; [discriminate|]). exact Hin.
Qed.

Lemma Qc_512_pos : (0 < Qc_of_Z 512)%Qc.
Proof. reflexivity. Qed.

Lemma Qc_384_pos : (0 < Qc_of_Z 384)%Qc.
Proof. reflexivity. Qed.



(** ** The mean of the kept errors *)

Lemma Q2R_Qcopp (x : Qc) : Q2R (- x)%Qc = (- Q2R x)%R.
Proof.
  rewrite <- Q2R_opp. apply Qeq_eqR. unfold Qcopp, Q2Qc.
  exact (Qred_correct (- x)).
Qed.

Lemma within_radius_abs (dx dy r : Qc) :
  within_radius dx dy r = true -> (Qcabs dx <= r)%Qc /\ (Qcabs dy <= r)%Qc.
Proof.
  unfold within_radius. rewrite andb_true_iff, !Qcleb_le. intros [Hr Hsq].
  apply Qcle_Rle in Hr. apply Qcle_Rle in Hsq.
  rewrite Q2R_Qcplus, !Q2R_Qcmult in Hsq. rewrite Q2R_Qc0 in Hr.
  split; apply Qcabs_Qcle_condition; split; apply Qcle_Rle;
    rewrite ?Q2R_Qcopp; nra.
Qed.

Lemma fsum_abs_bound (data : list Qc) (r : Qc) :
  Forall (fun x => (Qcabs x <= r)%Qc) data ->
  (Qcabs (fsum data) <= Qc_of_nat (length data) * r)%Qc.
Proof.
  induction 1 as [|x rest Hx Hrest IH].
  - change (fsum []) with 0%Qc. rewrite Qcabs_zero.
    change (Qc_of_nat (length [])) with 0%Qc. rewrite Qcmult_0_l. apply Qcle_refl.
  - rewrite fsum_cons. cbn [length].
    change (S (length rest)) with (1 + length rest)%nat.
    rewrite Qc_of_nat_add. change (Qc_of_nat 1) with 1%Qc.
    eapply Qcle_trans; [apply Qcabs_triangle|].
    replace ((1 + Qc_of_nat (length rest)) * r)%Qc
      with (r + Qc_of_nat (length rest) * r)%Qc by ring.
    apply Qcplus_le_compat; assumption.
Qed.

(** The mean of values that are at most [r] in absolute value is at most
    [r] in absolute value. *)
Lemma mean_value_abs_bound (x : Qc) (rest : list Qc) (r : Qc) :
  Forall (fun y => (Qcabs y <= r)%Qc) (x :: rest) ->
  (Qcabs (mean_value (x :: rest)) <= r)%Qc.
Proof.
  intros Hall. unfold mean_value, Qcdiv.
  set (n := Qc_of_nat (length (x :: rest))).
  assert (Hn : (0 < n)%Qc) by (apply Qc_of_nat_pos; discriminate).
  pose proof (Qcinv_pos n Hn) as Hinv.
  rewrite Qcabs_Qcmult, (Qcabs_pos (/ n)) by (apply Qclt_le_weak; exact Hinv).
  assert (Heq : (n * r * / n)%Qc = r).
  { replace (n * r * / n)%Qc with (r * (n * / n))%Qc by ring.
    rewrite Qcmult_inv_r; [ring|].
    intros Hz. rewrite Hz in Hn. exact (Qclt_irrefl _ Hn). }
  apply Qcle_trans with (n * r * / n)%Qc.
  - apply Qcmult_le_compat_r; [|apply Qclt_le_weak; exact Hinv].
    apply fsum_abs_bound. exact Hall.
  - rewrite Heq. apply Qcle_refl.
Qed.

Lemma collect_errors_abs (hitobjects : list hitobject) (timeline : list frame)
    (r : Qc) :
  Forall (fun v => (Qcabs (fst v) <= r)%Qc /\ (Qcabs (snd v) <= r)%Qc)
         (collect_errors hitobjects timeline r).
Proof.
  apply Forall_forall. intros v Hin.
  destruct (collect_errors_in _ _ _ _ Hin) as [t [x [y [f [_ [_ [_ Hw]]]]]]].
  apply within_radius_abs. exact Hw.
Qed.

(** X15: the inclusion radius bounds the reported bias.  When
    [summarize_errors] is run on the errors kept with radius
    [include_radius], the mean it prints is at most [include_radius] in
    absolute value on each axis. *)
Theorem reported_mean_within_radius
    (hitobjects : list hitobject) (timeline : list frame)
    (include_radius w h th mean_dx mean_dy : Qc) :
  In (LMeanBiasPx mean_dx mean_dy)
     (printed (summarize_errors
                 (collect_errors hitobjects timeline include_radius) w h th)) ->
  (Qcabs mean_dx <= include_radius)%Qc /\ (Qcabs mean_dy <= include_radius)%Qc.
Proof.
  pose proof (collect_errors_abs hitobjects timeline include_radius) as Hall.
  destruct (collect_errors hitobjects timeline include_radius) as [|e es].
  - simpl. intros [Hin|[]]. discriminate.
  - rewrite summarize_errors_report. unfold printed at 1. cbn [fst].
    rewrite in_app_iff, in_app_iff. intros [Hin|[Hin|Hin]].
    + cbn [In] in Hin.
      destruct Hin as [Hin|[Hin|[Hin|Hin]]]; try discriminate.
      * injection Hin as <- <-. rewrite Forall_forall in Hall.
        assert (Hfst : Forall (fun y => (Qcabs y <= include_radius)%Qc)
                         (map fst (e :: es))).
        { apply Forall_forall. intros y Hy.
          apply in_map_iff in Hy. destruct Hy as [v [<- Hv]].
          exact (proj1 (Hall v Hv)). }
        assert (Hsnd : Forall (fun y => (Qcabs y <= include_radius)%Qc)
                         (map snd (e :: es))).
        { apply Forall_forall. intros y Hy.
          apply in_map_iff in Hy. destruct Hy as [v [<- Hv]].
          exact (proj2 (Hall v Hv)). }
        split; [exact (mean_value_abs_bound _ _ _ Hfst)
               |exact (mean_value_abs_bound _ _ _ Hsnd)].
      * repeat (destruct Hin as [Hin|Hin]; [discriminate|]). destruct Hin.
    + apply in_map_iff in Hin. destruct Hin as [item [Hin _]]. discriminate.
    + destruct Hin as [Hin|Hin]; [discriminate|].
      rewrite suggest_adjustment_printed in Hin.
      destruct (Qcltb _ _ && Qcltb _ _) in Hin; cbn [In] in Hin;
        repeat (destruct Hin as [Hin|Hin]; [discriminate|]); destruct Hin.
Qed.

(** ** Instances of the further properties *)

(** A timeline that goes back in time: the frame at 12 ms, on the target,
    comes after the frame at 100 ms and is never reached; the frame at
    10 ms is returned. *)
Lemma find_closest_frame_ignores_after_break_witness :
  In (10, Qc_of_Z 0, Qc_of_Z 0) [(10, Qc_of_Z 0, Qc_of_Z 0)] /\
  12 < frame_time (100, Qc_of_Z 2, Qc_of_Z 2) /\
  time_dist 12 (10, Qc_of_Z 0, Qc_of_Z 0)
    < frame_time (100, Qc_of_Z 2, Qc_of_Z 2) - 12 /\
  find_closest_frame
    ([(10, Qc_of_Z 0, Qc_of_Z 0)]
     ++ (100, Qc_of_Z 2, Qc_of_Z 2) :: [(12, Qc_of_Z 1, Qc_of_Z 1)]) 12 80
  = find_closest_frame [(10, Qc_of_Z 0, Qc_of_Z 0)] 12 80.
Proof.
  assert (Hin : In (10, Qc_of_Z 0, Qc_of_Z 0) [(10, Qc_of_Z 0, Qc_of_Z 0)])
    by (left; reflexivity).
  assert (Hlate : 12 < frame_time (100, Qc_of_Z 2, Qc_of_Z 2))
    by (unfold frame_time; simpl; lia).
  assert (Hfar : time_dist 12 (10, Qc_of_Z 0, Qc_of_Z 0)
                 < frame_time (100, Qc_of_Z 2, Qc_of_Z 2) - 12)
    by (unfold time_dist, frame_time; simpl; lia).
  split; [exact Hin|]. split; [exact Hlate|]. split; [exact Hfar|].
  exact (find_closest_frame_ignores_after_break
           [(10, Qc_of_Z 0, Qc_of_Z 0)] [(12, Qc_of_Z 1, Qc_of_Z 1)]
           (100, Qc_of_Z 2, Qc_of_Z 2) (10, Qc_of_Z 0, Qc_of_Z 0) 12 80
           Hin Hlate Hfar).
Defined.

Lemma collect_errors_smaller_radius_witness :
  (Q2Qc (49 # 10) <= Qc_of_Z 5)%Qc /\
  collect_errors sample_hitobjects (build_replay_timeline sample_replay_3_4)
    (Q2Qc (49 # 10))
  = filter (fun v => within_radius (fst v) (snd v) (Q2Qc (49 # 10)))
      (collect_errors sample_hitobjects (build_replay_timeline sample_replay_3_4)
         (Qc_of_Z 5)).
Proof.
  assert (Hle : (Q2Qc (49 # 10) <= Qc_of_Z 5)%Qc) by (apply Qcleb_le; reflexivity).
  split; [exact Hle|].
  exact (collect_errors_smaller_radius sample_hitobjects
           (build_replay_timeline sample_replay_3_4) _ _ Hle).
Defined.


Lemma nonpositive_threshold_always_suggests_witness :
  (0 <= 0)%Qc /\
  ~ In (LNoAdjustment 0%Qc)
       (printed (summarize_errors [vec 0 0] (Qc_of_Z 100) (Qc_of_Z 100) 0%Qc)) /\
  (exists m d,
     In (LShiftX m d)
        (printed (summarize_errors [vec 0 0] (Qc_of_Z 100) (Qc_of_Z 100) 0%Qc))) /\
  (exists m d,
     In (LShiftY m d)
        (printed (summarize_errors [vec 0 0] (Qc_of_Z 100) (Qc_of_Z 100) 0%Qc))).
Proof.
  assert (Hth : (0 <= 0)%Qc) by apply Qcle_refl.
  split; [exact Hth|].
  exact (nonpositive_threshold_always_suggests (vec 0 0) [] (Qc_of_Z 100)
           (Qc_of_Z 100) 0%Qc Hth).
Defined.

Lemma sample_bias_not_below (w : Qc) :
  (Qcltb (Qcabs (mean_dx_mm_of [vec 4 (-4)] w)) (Q2Qc (1 # 4)) = false) ->
  ~ below_threshold [vec 4 (-4)] w (Qc_of_Z 100) (Q2Qc (1 # 4)).
Proof.
  intros Hb [Hx _]. apply Qcltb_lt in Hx. congruence.
Qed.



Lemma reported_mean_within_radius_witness :
  In (LMeanBiasPx (Qc_of_Z 3) (Qc_of_Z 4))
     (printed (summarize_errors
                 (collect_errors sample_hitobjects
                    (build_replay_timeline sample_replay_3_4) (Qc_of_Z 5))
                 (Qc_of_Z 100) (Qc_of_Z 100) (Q2Qc (1 # 4)))) /\
  (Qcabs (Qc_of_Z 3) <= Qc_of_Z 5)%Qc /\ (Qcabs (Qc_of_Z 4) <= Qc_of_Z 5)%Qc.
Proof.
  assert (Hin : In (LMeanBiasPx (Qc_of_Z 3) (Qc_of_Z 4))
                   (printed (summarize_errors
                      (collect_errors sample_hitobjects
                         (build_replay_timeline sample_replay_3_4) (Qc_of_Z 5))
                      (Qc_of_Z 100) (Qc_of_Z 100) (Q2Qc (1 # 4))))).
  { vm_compute. right. right. left. f_equal; apply Qc_is_canon; reflexivity. }
  split; [exact Hin|].
  exact (reported_mean_within_radius sample_hitobjects
           (build_replay_timeline sample_replay_3_4) (Qc_of_Z 5)
           (Qc_of_Z 100) (Qc_of_Z 100) (Q2Qc (1 # 4)) _ _ Hin).
Defined.

(** ** Parsing the hit objects *)

Section Parsing.

Variable strip : string -> string.
Variable py_int : string -> option Z.

Local Abbreviation parse_lines' := (parse_lines strip py_int).
Local Abbreviation parse_hitobjects' := (parse_hitobjects strip py_int).

(** The test that makes a line the header of the hit objects. *)
Local Abbreviation is_header raw := (String.prefix "[HitObjects]" (strip raw)).

Lemma header_not_empty (raw : string) :
  is_header raw = true -> String.eqb (strip raw) "" = false.
Proof.
  intros Hh. destruct (strip raw); [discriminate|reflexivity].
Qed.

Lemma parse_lines_before_header (pre rest : list string) :
  (forall raw, In raw pre -> is_header raw = false) ->
  parse_lines' (pre ++ rest) false = parse_lines' rest false.
Proof.
  induction pre as [|raw pre IH]; intros Hpre; [reflexivity|].
  cbn [app parse_lines].
  rewrite (Hpre raw (or_introl eq_refl)). cbn [negb].
  assert (IH' : parse_lines' (pre ++ rest) false = parse_lines' rest false)
    by (apply IH; intros r Hr; apply Hpre; right; exact Hr).
  destruct (String.eqb (strip raw) ""); exact IH'.
Qed.

(** X16: nothing is parsed before the header.  If no line of [pre] starts,
    once stripped, with [[HitObjects]], then [pre] alone gives no hit
    object, and [pre] followed by a header line and [rest] gives what
    [rest] gives inside the section. *)
Theorem parse_hitobjects_header (pre : list string) :
  (forall raw, In raw pre -> String.prefix "[HitObjects]" (strip raw) = false) ->
  parse_hitobjects strip py_int pre = [] /\
  forall hdr rest,
    String.prefix "[HitObjects]" (strip hdr) = true ->
    parse_hitobjects strip py_int (pre ++ hdr :: rest) = parse_lines strip py_int rest true.
Proof.
  intros Hpre. unfold parse_hitobjects. split.
  - rewrite <- (app_nil_r pre). rewrite parse_lines_before_header by exact Hpre.
    reflexivity.
  - intros hdr rest Hh. rewrite parse_lines_before_header by exact Hpre.
    cbn [parse_lines]. rewrite Hh, (header_not_empty hdr Hh). reflexivity.
Qed.

(** X17: inside the section every line is parsed on its own and the flag is
    never cleared: the hit objects of two runs of lines put end to end are
    those of the first followed by those of the second, whatever the lines
    are (another section header included). *)
Theorem parse_lines_in_section (l1 l2 : list string) :
  parse_lines strip py_int (l1 ++ l2) true
  = parse_lines strip py_int l1 true ++ parse_lines strip py_int l2 true.
Proof.
  induction l1 as [|raw l1 IH]; [reflexivity|].
  cbn [app parse_lines negb].
  destruct (String.eqb (strip raw) ""); [exact IH|].
  destruct (is_header raw); [exact IH|].
  destruct (length (split_on "," (strip raw)) <? 3)%nat; [exact IH|].
  destruct (py_int (nth 0 (split_on "," (strip raw)) ""%string)); [|exact IH].
  destruct (py_int (nth 1 (split_on "," (strip raw)) ""%string)); [|exact IH].
  destruct (py_int (nth 2 (split_on "," (strip raw)) ""%string)); [|exact IH].
  rewrite IH. reflexivity.
Qed.

Lemma parse_lines_in (lines : list string) (flag : bool) (t x y : Z) :
  In (t, x, y) (parse_lines' lines flag) ->
  exists raw,
    In raw lines /\
    (3 <= length (split_on "," (strip raw)))%nat /\
    py_int (nth 0 (split_on "," (strip raw)) ""%string) = Some x /\
    py_int (nth 1 (split_on "," (strip raw)) ""%string) = Some y /\
    py_int (nth 2 (split_on "," (strip raw)) ""%string) = Some t.
Proof.
  revert flag. induction lines as [|raw rest IH]; intros flag; [intros []|].
  cbn [parse_lines].
  assert (Hrest : forall b, In (t, x, y) (parse_lines' rest b) ->
            exists raw0, In raw0 (raw :: rest) /\
              (3 <= length (split_on "," (strip raw0)))%nat /\
              py_int (nth 0 (split_on "," (strip raw0)) ""%string) = Some x /\
              py_int (nth 1 (split_on "," (strip raw0)) ""%string) = Some y /\
              py_int (nth 2 (split_on "," (strip raw0)) ""%string) = Some t).
  { intros b Hin. destruct (IH b Hin) as [raw0 [Hraw Hf]].
    exists raw0. split; [right; exact Hraw|exact Hf]. }
  destruct (String.eqb (strip raw) ""); [apply Hrest|].
  destruct (is_header raw); [apply Hrest|].
  destruct (negb flag); [apply Hrest|].
  destruct (Nat.ltb_spec (length (split_on "," (strip raw))) 3) as [Hlt|Hge];
    [apply Hrest|].
  destruct (py_int (nth 0 (split_on "," (strip raw)) ""%string)) as [x0|] eqn:E0;
    [|apply Hrest].
  destruct (py_int (nth 1 (split_on "," (strip raw)) ""%string)) as [y0|] eqn:E1;
    [|apply Hrest].
  destruct (py_int (nth 2 (split_on "," (strip raw)) ""%string)) as [t0|] eqn:E2;
    [|apply Hrest].
  intros [Heq|Hin]; [|exact (Hrest flag Hin)].
  injection Heq as <- <- <-.
  exists raw. split; [left; reflexivity|].
  split; [exact Hge|]. split; [exact E0|]. split; [exact E1|exact E2].
Qed.

Lemma parse_lines_length (lines : list string) (flag : bool) :
  (length (parse_lines' lines flag) <= length lines)%nat.
Proof.
  revert flag. induction lines as [|raw rest IH]; intros flag; [simpl; lia|].
  cbn [parse_lines length].
  pose proof (IH flag) as Hf. pose proof (IH true) as Ht.
  destruct (String.eqb (strip raw) ""); [lia|].
  destruct (is_header raw); [lia|].
  destruct (negb flag); [lia|].
  destruct (length (split_on "," (strip raw)) <? 3)%nat; [lia|].
  destruct (py_int (nth 0 (split_on "," (strip raw)) ""%string)); [|lia].
  destruct (py_int (nth 1 (split_on "," (strip raw)) ""%string)); [|lia].
  destruct (py_int (nth 2 (split_on "," (strip raw)) ""%string)); [|lia].
  cbn [length]. lia.
Qed.

(** X18: a hit object [(t, x, y)] of [parse_hitobjects] comes from a line
    that, stripped and split at the commas, has at least three fields, the
    first read by [int] as [x], the second as [y] and the third as [t]; and
    there are at most as many hit objects as lines. *)
Theorem parse_hitobjects_fields (lines : list string) :
  (forall t x y,
     In (t, x, y) (parse_hitobjects strip py_int lines) ->
     exists raw,
       In raw lines /\
       (3 <= length (split_on "," (strip raw)))%nat /\
       py_int (nth 0 (split_on "," (strip raw)) ""%string) = Some x /\
       py_int (nth 1 (split_on "," (strip raw)) ""%string) = Some y /\
       py_int (nth 2 (split_on "," (strip raw)) ""%string) = Some t) /\
  (length (parse_hitobjects strip py_int lines) <= length lines)%nat.
Proof.
  split.
  - intros t x y Hin. exact (parse_lines_in lines false t x y Hin).
  - apply parse_lines_length.
Qed.

End Parsing.

(** The sample beatmap: the line before the header, the line with one
    field, the line whose second field is no number and the later section
    header give nothing; the two other lines give a hit object each, time
    first. *)
Example parse_hitobjects_sample :
  parse_hitobjects sample_strip sample_int sample_beatmap
  = [(1000, 256, 192); (1500, -3, 40)].
Proof. reflexivity. Qed.

(** ** Hashing and the search of the Songs folder *)

Lemma chunk_size_pos : (0 < chunk_size)%nat.
Proof. unfold chunk_size. lia. Qed.

(** Reading in chunks of any positive size feeds the hash every byte of
    the file, in order. *)
Lemma feed_chunks_all (size : nat) (rest h : list Byte.byte) :
  (0 < size)%nat -> feed_chunks size rest h = h ++ rest.
Proof.
  intros Hsize. funelim (feed_chunks size rest h).
  - clear Heqcall. destruct rest as [|b rest]; [rewrite app_nil_r; reflexivity|].
    destruct size; [lia|]. discriminate.
  - match goal with
    | IH : (0 < _)%nat -> feed_chunks _ _ _ = _ |- _ => rewrite IH by assumption
    end.
    match goal with
    | Hc : firstn _ _ = _ :: _ |- _ => rewrite <- Hc
    end.
    rewrite <- app_assoc, firstn_skipn. reflexivity.
Qed.

Section Lookup.

Variable strip : string -> string.
Variable py_int : string -> option Z.
Variable md5_hexdigest : list Byte.byte -> string.
Variable text_lines : list Byte.byte -> list string.

Local Abbreviation md5_file' := (md5_file md5_hexdigest).
Local Abbreviation find_osu' := (find_osu_by_md5 md5_hexdigest).
Local Abbreviation analyze_file' :=
  (analyze_replay_file strip py_int md5_hexdigest text_lines).
Local Abbreviation analyze_all' :=
  (analyze_all strip py_int md5_hexdigest text_lines).

(** X19: [md5_file] returns the digest of the whole content of a readable
    file: feeding the hash 8192 bytes at a time is feeding it the file. *)
Theorem md5_file_whole (data : list Byte.byte) :
  md5_file md5_hexdigest (Some data) = Some (md5_hexdigest data) /\
  forall h, feed_chunks chunk_size data h = h ++ data.
Proof.
  split.
  - unfold md5_file. rewrite (feed_chunks_all _ _ _ chunk_size_pos). reflexivity.
  - intros h. apply feed_chunks_all. exact chunk_size_pos.
Qed.

Local Abbreviation matches := (matches_hash md5_hexdigest).

Lemma find_in_files_first (root : string) (files : list dir_entry)
    (md5_hash : string) :
  find_in_files md5_hexdigest root files md5_hash
  = find (matches md5_hash) (map (pair root) files).
Proof.
  induction files as [|e rest IH]; [reflexivity|].
  cbn [find_in_files map find]. unfold matches at 1. cbn [snd].
  destruct (is_osu_name (entry_name e)); cbn [negb andb]; [|exact IH].
  destruct (entry_bytes e) as [data|]; cbn [md5_file]; [|exact IH].
  rewrite (feed_chunks_all _ _ _ chunk_size_pos). cbn [app].
  destruct (String.eqb (md5_hexdigest data) md5_hash); [reflexivity|exact IH].
Qed.

Lemma find_app_first {A : Type} (f : A -> bool) (l1 l2 : list A) :
  find f (l1 ++ l2) = match find f l1 with Some x => Some x | None => find f l2 end.
Proof.
  induction l1 as [|a l1 IH]; [reflexivity|].
  simpl. destruct (f a); [reflexivity|exact IH].
Qed.

Lemma find_osu_by_md5_find (walk : list (string * list dir_entry))
    (md5_hash : string) :
  find_osu' walk md5_hash
  = find (matches md5_hash) (walk_files walk).
Proof.
  induction walk as [|[root files] rest IH]; [reflexivity|].
  unfold walk_files. cbn [find_osu_by_md5 flat_map fst snd].
  fold (walk_files rest).
  rewrite find_app_first, find_in_files_first, IH. reflexivity.
Qed.

(** X20: [find_osu_by_md5] returns the first file, in the order of the
    walk, that is named [*.osu] (in any case), can be read and has the
    digest looked for; it returns [None] exactly when the walk has no such
    file.  A file that cannot be read is passed over. *)
Theorem find_osu_by_md5_first (walk : list (string * list dir_entry))
    (md5_hash : string) :
  find_osu_by_md5 md5_hexdigest walk md5_hash
  = find (matches_hash md5_hexdigest md5_hash) (walk_files walk) /\
  (forall path,
     find_osu_by_md5 md5_hexdigest walk md5_hash = Some path ->
     In path (walk_files walk) /\
     is_osu_name (entry_name (snd path)) = true /\
     exists data, entry_bytes (snd path) = Some data /\
                  md5_hexdigest data = md5_hash) /\
  (find_osu_by_md5 md5_hexdigest walk md5_hash = None <->
   forall path, In path (walk_files walk) -> matches_hash md5_hexdigest md5_hash path = false).
Proof.
  rewrite find_osu_by_md5_find. split; [reflexivity|]. split.
  - intros path Hfind. apply find_some in Hfind. destruct Hfind as [Hin Hm].
    split; [exact Hin|]. unfold matches_hash in Hm.
    apply andb_true_iff in Hm. destruct Hm as [Hname Hd].
    split; [exact Hname|].
    destruct (entry_bytes (snd path)) as [data|]; [|discriminate].
    exists data. split; [reflexivity|]. apply String.eqb_eq. exact Hd.
  - split.
    + apply find_none.
    + intros Hall. destruct (find (matches md5_hash) (walk_files walk)) as [p|] eqn:E;
        [|reflexivity].
      apply find_some in E. destruct E as [Hin Hm].
      rewrite (Hall p Hin) in Hm. discriminate.
Qed.

Lemma analyze_replay_with_md5_pair (hitobjects : list hitobject)
    (events : list replay_event) (r : Qc) :
  analyze_replay_with_md5 hitobjects events r
  = (printed (analyze_replay_with_md5 hitobjects events r),
     inr (collect_errors hitobjects (build_replay_timeline events) r)).
Proof. reflexivity. Qed.

Lemma analyze_replay_file_returns (osr_path : string) (osr : osr_file)
    (walk : list (string * list dir_entry)) (include_radius : Qc) :
  exists out errors,
    analyze_file' osr_path osr walk include_radius = (out, inr errors).
Proof.
  unfold analyze_replay_file.
  destruct osr as [| |rp]; try (eexists; eexists; reflexivity).
  destruct (negb (truthy (replay_hash rp))); [eexists; eexists; reflexivity|].
  destruct (replay_hash rp) as [hash|]; [|eexists; eexists; reflexivity].
  destruct (find_osu' walk hash) as [path|]; [|eexists; eexists; reflexivity].
  rewrite analyze_replay_with_md5_pair. eexists; eexists; reflexivity.
Qed.


(** ** The run over all replays *)

Local Abbreviation replay_output' :=
  (replay_output strip py_int md5_hexdigest text_lines).
Local Abbreviation replay_errors' :=
  (replay_errors strip py_int md5_hexdigest text_lines).

Lemma analyze_replay_file_pair (file : string * osr_file)
    (walk : list (string * list dir_entry)) :
  analyze_file' (fst file) (snd file) walk (Qc_of_Z 80)
  = (replay_output' walk file, inr (replay_errors' walk file)).
Proof.
  unfold replay_output, replay_errors.
  destruct (analyze_replay_file_returns (fst file) (snd file) walk (Qc_of_Z 80))
    as [out [errors ->]].
  reflexivity.
Qed.

Lemma analyze_all_result (replay_files : list (string * osr_file))
    (walk : list (string * list dir_entry)) (all_errors : list (Qc * Qc)) :
  analyze_all' replay_files walk all_errors
  = (flat_map (replay_output' walk) replay_files,
     inr (all_errors ++ flat_map (replay_errors' walk) replay_files)).
Proof.
  revert all_errors. induction replay_files as [|[rp osr] rest IH]; intros acc.
  - simpl. rewrite app_nil_r. reflexivity.
  - cbn [analyze_all flat_map].
    pose proof (analyze_replay_file_pair (rp, osr) walk) as Hpair.
    cbn [fst snd] in Hpair. rewrite Hpair.
    rewrite IH, app_assoc. reflexivity.
Qed.

End Lookup.

Section RunAll.

Variable strip : string -> string.
Variable py_int : string -> option Z.
Variable md5_hexdigest : list Byte.byte -> string.
Variable text_lines : list Byte.byte -> list string.

Local Abbreviation output_of :=
  (replay_output strip py_int md5_hexdigest text_lines).
Local Abbreviation errors_of :=
  (replay_errors strip py_int md5_hexdigest text_lines).
Local Abbreviation run_all :=
  (analyze_all strip py_int md5_hexdigest text_lines).
Local Abbreviation run :=
  (analyze_and_summarize strip py_int md5_hexdigest text_lines).

Lemma summarize_errors_order (errors errors' : list (Qc * Qc)) (w h th : Qc) :
  Permutation errors errors' ->
  summarize_errors errors w h th = summarize_errors errors' w h th.
Proof.
  intros Hperm. destruct errors as [|e es], errors' as [|e' es'].
  - reflexivity.
  - apply Permutation_nil in Hperm. discriminate.
  - apply Permutation_sym, Permutation_nil in Hperm. discriminate.
  - rewrite !summarize_errors_report. unfold mean_dx_mm_of, mean_dy_mm_of.
    rewrite (mean_value_permutation _ _ (Permutation_map fst Hperm)),
            (mean_value_permutation _ _ (Permutation_map snd Hperm)),
            (count_quadrants_permutation _ _ Hperm),
            (Permutation_length Hperm).
    reflexivity.
Qed.

Lemma run_result (replay_files : list (string * osr_file))
    (walk : list (string * list dir_entry)) (w h : Qc) :
  run replay_files walk w h
  = (flat_map (output_of walk) replay_files
     ++ map Analysis
          (printed (summarize_errors (flat_map (errors_of walk) replay_files)
                      w h (Q2Qc (25 # 100)))),
     inr tt).
Proof.
  unfold analyze_and_summarize. rewrite analyze_all_result. cbn [app].
  pose proof (summarize_errors_returns (flat_map (errors_of walk) replay_files)
                w h (Q2Qc (25 # 100))) as Hret.
  destruct (summarize_errors (flat_map (errors_of walk) replay_files) w h
              (Q2Qc (25 # 100))) as [out' result].
  cbn [snd] in Hret. subst result. reflexivity.
Qed.


Lemma replay_errors_cases (walk : list (string * list dir_entry))
    (file : string * osr_file) :
  errors_of walk file = [] \/
  exists hitobjects timeline,
    errors_of walk file = collect_errors hitobjects timeline (Qc_of_Z 80).
Proof.
  unfold replay_errors, analyze_replay_file.
  destruct (snd file) as [| |rp]; try (left; reflexivity).
  destruct (negb (truthy (replay_hash rp))); [left; reflexivity|].
  destruct (replay_hash rp) as [hash|]; [|left; reflexivity].
  destruct (find_osu_by_md5 md5_hexdigest walk hash) as [path|];
    [|left; reflexivity].
  right. rewrite analyze_replay_with_md5_pair. cbn [snd].
  eexists; eexists; reflexivity.
Qed.


End RunAll.

(** ** Instances on the sample files *)

(** In the sample folder the file that is no beatmap is passed over and
    the beatmap is found under its upper-case name; analysed against it, the
    sample replay gives one error and the missing one none. *)
Example find_osu_by_md5_sample :
  option_map (fun path => (fst path, entry_name (snd path)))
    (find_osu_by_md5 sample_digest sample_walk (sample_digest sample_osu_bytes))
  = Some ("Songs/map", "Map.OSU")%string /\
  map (fun file => length (replay_errors sample_strip sample_int sample_digest
                             sample_text_lines sample_walk file))
      sample_replay_files
  = [1%nat; 0%nat].
Proof. split; vm_compute; reflexivity. Qed.

Lemma parse_hitobjects_header_witness :
  (forall raw, In raw ["osu file format v14"; "256,192,500"]%string ->
     String.prefix "[HitObjects]" (sample_strip raw) = false) /\
  parse_hitobjects sample_strip sample_int
    ["osu file format v14"; "256,192,500"]%string = [] /\
  parse_hitobjects sample_strip sample_int
    (["osu file format v14"%string; "256,192,500"%string]
     ++ "[HitObjects]"%string :: ["256,192,1000,1,0,0:0:0:0:"%string])
  = parse_lines sample_strip sample_int ["256,192,1000,1,0,0:0:0:0:"%string] true.
Proof.
  assert (Hpre : forall raw, In raw ["osu file format v14"; "256,192,500"]%string ->
                   String.prefix "[HitObjects]" (sample_strip raw) = false).
  { intros raw [<-|[<-|[]]]; reflexivity. }
  split; [exact Hpre|].
  destruct (parse_hitobjects_header sample_strip sample_int _ Hpre) as [Hnil Hhdr].
  split; [exact Hnil|].
  exact (Hhdr "[HitObjects]"%string ["256,192,1000,1,0,0:0:0:0:"%string] eq_refl).
Defined.

